(** * TESS light-curve export: a shallow embedding of [tess_lc_2_csv.py]

    The script opens a FITS file, filters the HDU 1 table on the validity of
    its [TIME] and [SAP_FLUX] columns, appends the derived columns
    [BJD_TDB], [Source_AMag_T1] and [Source_AMag_Error_T1], and writes the
    table next to the input with the suffix [.csv].

    Numbers.  A cell of a column is an IEEE value: a finite number, one of
    the two infinities, or NaN.  Finite numbers are rationals in canonical
    form ([Qc]) and the arithmetic on them is exact: rounding, overflow and
    the sign of zero are not represented, so an equality of the model is an
    equality up to rounding in the program.  The special values follow
    IEEE 754 as numpy applies it under [np.errstate(invalid="ignore",
    divide="ignore")].

    Columns.  [Table(hdu1.data)] builds plain columns.  The model keeps the
    optional mask of a column because lines 107 and 126 look for one; the
    arithmetic of the derived columns acts on the values.

    Library code.  [np.log10] on a positive finite argument, [Path.resolve]
    and [Path.with_suffix] are not code of the repository; they are the
    fields of a [platform] the definitions are parameterised by. *)

From Stdlib Require Import String Ascii List Bool Arith ZArith QArith Qcanon Lia.
Import ListNotations.

Local Open Scope Z_scope.
Local Open Scope Qc_scope.

(** ** Floating values *)

Inductive fval : Type :=
| Fin (q : Qc)
| PInf
| NInf
| NaN.

Definition qc (n : Z) (d : positive) : Qc := Q2Qc (n # d).

(** [np.isnan] and [np.isfinite]. *)
Definition isnan (x : fval) : bool :=
  match x with NaN => true | _ => false end.

Definition isfinite (x : fval) : bool :=
  match x with Fin _ => true | _ => false end.

Definition fneg (x : fval) : fval :=
  match x with
  | Fin a => Fin (- a)
  | PInf => NInf
  | NInf => PInf
  | NaN => NaN
  end.

Definition fadd (x y : fval) : fval :=
  match x, y with
  | NaN, _ | _, NaN => NaN
  | Fin a, Fin b => Fin (a + b)
  | PInf, NInf | NInf, PInf => NaN
  | PInf, _ | _, PInf => PInf
  | NInf, _ | _, NInf => NInf
  end.

Definition fsub (x y : fval) : fval := fadd x (fneg y).

(** An infinity times a finite factor: the sign of the factor decides, and a
    zero factor is the invalid operation. *)
Definition scale_inf (positive_inf : bool) (a : Qc) : fval :=
  match a ?= 0 with
  | Eq => NaN
  | Gt => if positive_inf then PInf else NInf
  | Lt => if positive_inf then NInf else PInf
  end.

Definition fmul (x y : fval) : fval :=
  match x, y with
  | NaN, _ | _, NaN => NaN
  | Fin a, Fin b => Fin (a * b)
  | Fin a, PInf | PInf, Fin a => scale_inf true a
  | Fin a, NInf | NInf, Fin a => scale_inf false a
  | PInf, PInf | NInf, NInf => PInf
  | PInf, NInf | NInf, PInf => NInf
  end.

(** Division with the divide-by-zero and invalid conditions ignored: a
    non-zero number over zero is an infinity, zero over zero is NaN. *)
Definition fdiv (x y : fval) : fval :=
  match x, y with
  | NaN, _ | _, NaN => NaN
  | Fin a, Fin b =>
      match b ?= 0 with
      | Eq => match a ?= 0 with Eq => NaN | Gt => PInf | Lt => NInf end
      | _ => Fin (a / b)
      end
  | Fin _, PInf | Fin _, NInf => Fin 0
  | PInf, Fin b => match b ?= 0 with Lt => NInf | _ => PInf end
  | NInf, Fin b => match b ?= 0 with Lt => PInf | _ => NInf end
  | _, _ => NaN
  end.

(** Decidable equality of values, for evaluating the model on inputs. *)
Definition feqb (x y : fval) : bool :=
  match x, y with
  | Fin a, Fin b => Qeq_bool a b
  | PInf, PInf | NInf, NInf | NaN, NaN => true
  | _, _ => false
  end.

(** The order numpy sorts by, on values that are not NaN. *)
Definition fleb (x y : fval) : bool :=
  match x, y with
  | NaN, _ | _, NaN => false
  | NInf, _ => true
  | _, PInf => true
  | Fin a, Fin b => Qle_bool a b
  | _, _ => false
  end.

(** ** The platform: library functions the script calls *)

Record platform : Type := mkPlatform {
  (** [np.log10] on a positive finite argument *)
  libm_log10 : Qc -> Qc;
  (** [Path(p).expanduser().resolve()] *)
  path_resolve : string -> string;
  (** [Path.with_suffix] *)
  path_with_suffix : string -> string -> string
}.

(** ** numpy on sequences *)

(** Boolean-mask indexing [a[keep]]. *)
Fixpoint select {A : Type} (keep : list bool) (a : list A) : list A :=
  match keep, a with
  | k :: keep', x :: a' => if k then x :: select keep' a' else select keep' a'
  | _, _ => []
  end.

(** Elementwise [&] of two boolean arrays. *)
Fixpoint and_mask (m1 m2 : list bool) : list bool :=
  match m1, m2 with
  | b1 :: m1', b2 :: m2' => (b1 && b2) :: and_mask m1' m2'
  | _, _ => []
  end.

Definition any (m : list bool) : bool := existsb (fun b => b) m.

Definition count_true (m : list bool) : nat :=
  length (filter (fun b => b) m).

(** Insertion sort by [fleb]. *)
Fixpoint insert_sorted (x : fval) (l : list fval) : list fval :=
  match l with
  | [] => [x]
  | y :: l' => if fleb x y then x :: l else y :: insert_sorted x l'
  end.

Fixpoint sort (l : list fval) : list fval :=
  match l with
  | [] => []
  | x :: l' => insert_sorted x (sort l')
  end.

(** [np.nanmedian]: NaN entries are dropped; the median of what is left is
    the middle element of the sorted values, or the mean of the two middle
    elements when their number is even; NaN when nothing is left. *)
Definition nanmedian (l : list fval) : fval :=
  let s := sort (filter (fun x => negb (isnan x)) l) in
  let n := length s in
  if Nat.eqb n 0 then NaN
  else if Nat.odd n then nth (n / 2) s NaN
  else fdiv (fadd (nth (n / 2 - 1) s NaN) (nth (n / 2) s NaN)) (Fin (qc 2 1)).

(** ** Tables *)

(** A column carries its values and, for a masked column, its mask;
    [None] is a plain column (no [mask] attribute, or [np.ma.nomask]). *)
Record column : Type := mkColumn {
  data : list fval;
  mask : option (list bool)
}.

(** A table is the ordered sequence of its named columns. *)
Definition table : Type := list (string * column).

Definition colnames (t : table) : list string := map fst t.

Definition has_column (name : string) (t : table) : bool :=
  existsb (String.eqb name) (colnames t).

(** [table[name]] *)
Fixpoint get_column (name : string) (t : table) : option column :=
  match t with
  | [] => None
  | (n, c) :: t' => if String.eqb name n then Some c else get_column name t'
  end.

(** [len(table)] *)
Definition len (t : table) : nat :=
  match t with
  | [] => 0%nat
  | (_, c) :: _ => length (data c)
  end.

Definition index_column (keep : list bool) (c : column) : column :=
  {| data := select keep (data c);
     mask := option_map (select keep) (mask c) |}.

(** [table[keep]]: the same rows are taken from every column. *)
Definition index_rows (keep : list bool) (t : table) : table :=
  map (fun nc => (fst nc, index_column keep (snd nc))) t.

(** [table[name] = col]: replaces the column of that name where it stands,
    or appends a new one. *)
Fixpoint set_column (name : string) (c : column) (t : table) : table :=
  match t with
  | [] => [(name, c)]
  | (n, c0) :: t' =>
      if String.eqb name n then (n, c) :: t' else (n, c0) :: set_column name c t'
  end.

(** Every column has as many values as the table has rows, and a mask has
    one bit per value. *)
Definition wf_column (n : nat) (c : column) : Prop :=
  length (data c) = n /\
  match mask c with Some m => length m = n | None => True end.

Definition wf_table (t : table) : Prop :=
  Forall (fun nc => wf_column (len t) (snd nc)) t.

(** ** Diagnostics and early returns *)

(** What the script writes to the standard error stream. *)
Inductive diag : Type :=
| ErrPathRequired
| ErrFileNotFound (p : string)
| ErrDestinationExists (p : string)
| ErrNoHDU1 (found : nat)
| ErrNotTableHDU
| ErrNoData
| ErrNoSapFlux
| WarnNoTessmag
| WarnNoSapFluxErr
| ErrWritingCsv
| ErrOpeningFits
| ErrUnexpected.

(** A computation logs diagnostics and either carries on with a value or
    returns from [main] with an exit code. *)
Definition step (A : Type) : Type := (list diag * (A + Z))%type.

Definition ret {A : Type} (a : A) : step A := ([], inl a).

Definition bind {A B : Type} (m : step A) (k : A -> step B) : step B :=
  match m with
  | (log, inl a) => let (log', r) := k a in (log ++ log', r)
  | (log, inr code) => (log, inr code)
  end.

Definition say (d : diag) : step unit := ([d], inl tt).

Definition leave {A : Type} (d : diag) (code : Z) : step A := ([d], inr code).

Notation "x <- m ;; k" := (bind m (fun x => k))
  (at level 61, m at next level, right associativity).
Notation "m ;;; k" := (bind m (fun _ => k))
  (at level 61, right associativity).

(** A subscript [table[name]] on a missing column raises [KeyError], which
    the catch-all handler of [main] turns into exit code 4. *)
Definition subscript (name : string) (t : table) : step column :=
  match get_column name t with
  | Some c => ret c
  | None => leave ErrUnexpected 4%Z
  end.

(** ** Validity filter (lines 105-135) *)

(** [~np.array(col.mask, dtype=bool)], or all ones for a plain column. *)
Definition not_masked (n : nat) (c : column) : list bool :=
  match mask c with
  | Some m => map negb m
  | None => repeat true n
  end.

(** [~np.isnan(np.asarray(col, dtype=float))] *)
Definition not_nan (c : column) : list bool :=
  map (fun v => negb (isnan v)) (data c).

Definition keep_mask (n : nat) (c : column) : list bool :=
  and_mask (not_masked n c) (not_nan c).

Definition filter_time (t : table) : table :=
  match get_column "TIME" t with
  | Some time_col => index_rows (keep_mask (len t) time_col) t
  | None => t
  end.

Definition filter_flux (t : table) : step table :=
  match get_column "SAP_FLUX" t with
  | None => leave ErrNoSapFlux 5%Z
  | Some sap_flux_col => ret (index_rows (keep_mask (len t) sap_flux_col) t)
  end.

(** ** Derived columns (lines 137-173) *)

Definition epoch_offset : Qc := qc 2457000 1.

Definition add_bjd_tdb (t : table) : table :=
  match get_column "TIME" t with
  | Some time_col =>
      set_column "BJD_TDB"
        {| data := map (fun v => fadd v (Fin epoch_offset)) (data time_col);
           mask := mask time_col |} t
  | None => t
  end.

Section Engine.

Variable P : platform.

(** [np.log10] with the invalid and divide-by-zero conditions ignored. *)
Definition log10 (x : fval) : fval :=
  match x with
  | Fin a =>
      match a ?= 0 with
      | Gt => Fin (libm_log10 P a)
      | Eq => NInf
      | Lt => NaN
      end
  | PInf => PInf
  | NInf => NaN
  | NaN => NaN
  end.

(** [raw_mag = -2.5 * np.log10(table["SAP_FLUX"])] *)
Definition raw_mag (flux : list fval) : list fval :=
  map (fun v => fmul (Fin (qc (-25) 10)) (log10 v)) flux.

(** [valid_mask = np.isfinite(raw_mag)] *)
Definition valid_mask (raw : list fval) : list bool := map isfinite raw.

(** The zero point of lines 153-158, computed when some magnitude is
    finite. *)
Definition zero_point_of (tess_mag : option Qc) (raw : list fval) : fval :=
  let median_raw_mag := nanmedian (select (valid_mask raw) raw) in
  match tess_mag with
  | Some m => fsub (Fin m) median_raw_mag
  | None => Fin 0
  end.

(** The values of the column [Source_AMag_T1] (lines 152-162). *)
Definition source_amag (tess_mag : option Qc) (n : nat) (raw : list fval)
  : list fval :=
  if any (valid_mask raw) then
    map (fun m => fadd m (zero_point_of tess_mag raw)) raw
  else repeat NaN n.

Definition add_source_amag (tess_mag : option Qc) (t : table) : step table :=
  sap_flux <- subscript "SAP_FLUX" t ;;
  let raw := raw_mag (data sap_flux) in
  ret (set_column "Source_AMag_T1"
         {| data := source_amag tess_mag (len t) raw;
            mask := if any (valid_mask raw) then mask sap_flux else None |} t).

Definition or_masks (m1 m2 : option (list bool)) : option (list bool) :=
  match m1, m2 with
  | Some a, Some b => Some (map (fun p => orb (fst p) (snd p)) (combine a b))
  | Some a, None => Some a
  | None, m => m
  end.

(** [mag_err = 1.0857 * (table["SAP_FLUX_ERR"] / table["SAP_FLUX"])] *)
Definition mag_err (err flux : list fval) : list fval :=
  map (fun p => fmul (Fin (qc 10857 10000)) (fdiv (fst p) (snd p)))
      (combine err flux).

Definition add_source_amag_error (t : table) : step table :=
  match get_column "SAP_FLUX_ERR" t with
  | Some sap_flux_err =>
      sap_flux <- subscript "SAP_FLUX" t ;;
      ret (set_column "Source_AMag_Error_T1"
             {| data := mag_err (data sap_flux_err) (data sap_flux);
                mask := or_masks (mask sap_flux_err) (mask sap_flux) |} t)
  | None => say WarnNoSapFluxErr ;;; ret t
  end.

(** Lines 137-173: the derived columns, on the filtered table. *)
Definition derive (tess_mag : option Qc) (t : table) : step table :=
  let t := add_bjd_tdb t in
  match tess_mag with None => say WarnNoTessmag | Some _ => ret tt end ;;;
  t <- add_source_amag tess_mag t ;;
  add_source_amag_error t.

(** Lines 105-173: from the table of HDU 1 and the [TESSMAG] card of the
    primary header to the table that is written. *)
Definition process (tess_mag : option Qc) (t : table) : step table :=
  t <- filter_flux (filter_time t) ;;
  derive tess_mag t.

End Engine.

(** ** Files and the command line *)

(** A header, by its numeric cards: [TESSMAG] is a floating-point card, and
    FITS has no literal for NaN or an infinity, so the value of a card that
    is present is a finite number. *)
Definition header : Type := list (string * Qc).

(** [header.get(key)] *)
Fixpoint header_get (key : string) (h : header) : option Qc :=
  match h with
  | [] => None
  | (k, v) :: h' => if String.eqb key k then Some v else header_get key h'
  end.

(** The payload of an HDU: a table HDU ([BinTableHDU] or [TableHDU]) with
    its [data] attribute, or any other kind of HDU. *)
Inductive payload : Type :=
| TablePayload (hdu_data : option table)
| OtherPayload.

Record hdu : Type := mkHdu {
  hdu_header : header;
  hdu_payload : payload
}.

Inductive file : Type :=
| FitsFile (hdul : list hdu)
| CsvFile (t : table)
| OtherFile.

(** The file system: the files by resolved path, and whether a path can be
    written to. *)
Record world : Type := mkWorld {
  files : list (string * file);
  writable : string -> bool
}.

Fixpoint lookup_file (p : string) (fs : list (string * file)) : option file :=
  match fs with
  | [] => None
  | (q, f) :: fs' => if String.eqb p q then Some f else lookup_file p fs'
  end.

Definition path_exists (p : string) (fs : list (string * file)) : bool :=
  match lookup_file p fs with Some _ => true | None => false end.

Fixpoint store_file (p : string) (f : file) (fs : list (string * file))
  : list (string * file) :=
  match fs with
  | [] => [(p, f)]
  | (q, g) :: fs' =>
      if String.eqb p q then (q, f) :: fs' else (q, g) :: store_file p f fs'
  end.

(** The parsed command line. *)
Record args : Type := mkArgs {
  path : string;
  overwrite : bool;
  zero_point : fval
}.

(** ASCII characters [str.strip] removes. *)
Definition is_space (c : ascii) : bool :=
  let n := nat_of_ascii c in
  ((9 <=? n) && (n <=? 13) || (28 <=? n) && (n <=? 32))%nat.

Fixpoint is_blank (s : string) : bool :=
  match s with
  | EmptyString => true
  | String c s' => is_space c && is_blank s'
  end.

(** What a run leaves behind: the exit status, the diagnostics, the files. *)
Record outcome : Type := mkOutcome {
  exit_code : Z;
  stderr : list diag;
  files_after : list (string * file)
}.

Section Main.

Variable P : platform.

(** [resolve_path]: a blank argument ends the process with status 2. *)
Definition resolve_path (path_arg : string) : step string :=
  if is_blank path_arg then leave ErrPathRequired 2%Z
  else ret (path_resolve P path_arg).

(** The body of the [with fits.open(...)] block, up to the write. *)
Definition export_table (hdul : list hdu) : step table :=
  match hdul with
  | primary :: hdu1 :: _ =>
      match hdu_payload hdu1 with
      | OtherPayload => leave ErrNotTableHDU 5%Z
      | TablePayload None => leave ErrNoData 5%Z
      | TablePayload (Some t) =>
          process P (header_get "TESSMAG" (hdu_header primary)) t
      end
  | _ => leave (ErrNoHDU1 (length hdul)) 5%Z
  end.

(** [fits.open]: a file that is not a FITS container raises [OSError]. *)
Definition fits_open (f : file) : step (list hdu) :=
  match f with
  | FitsFile hdul => ret hdul
  | _ => leave ErrOpeningFits 3%Z
  end.

(** [main] up to its return: the diagnostics, and either the exit status of
    an early return or the file that [table.write] has stored.  A write that
    raises ends the run with status 6; what it leaves on disk is not
    modelled. *)
Definition run (w : world) (a : args) : step (string * table) :=
  input_path <- resolve_path (path a) ;;
  match lookup_file input_path (files w) with
  | None => leave (ErrFileNotFound input_path) 2%Z
  | Some input =>
      let csv_path := path_with_suffix P input_path ".csv" in
      if path_exists csv_path (files w) && negb (overwrite a)
      then leave (ErrDestinationExists csv_path) 6%Z
      else
        hdul <- fits_open input ;;
        t <- export_table hdul ;;
        if writable w csv_path then ret (csv_path, t)
        else leave ErrWritingCsv 6%Z
  end.

Definition main (w : world) (a : args) : outcome :=
  match run w a with
  | (log, inl (csv_path, t)) =>
      {| exit_code := 0; stderr := log;
         files_after := store_file csv_path (CsvFile t) (files w) |}
  | (log, inr code) =>
      {| exit_code := code; stderr := log; files_after := files w |}
  end.

End Main.

(** ** The row predicates the specification is written in *)

(** [masked(v) = (m is present and m == true) OR isNaN(v)], for row [i] of
    a column. *)
Definition masked (c : column) (i : nat) : bool :=
  match mask c with Some m => nth i m false | None => false end
  || isnan (nth i (data c) (Fin 0)).

(** The term of a column that the table does not have is omitted. *)
Definition masked_in (name : string) (t : table) (i : nat) : bool :=
  match get_column name t with
  | Some c => masked c i
  | None => false
  end.

Definition survives (t : table) (i : nat) : bool :=
  negb (masked_in "TIME" t i) && negb (masked_in "SAP_FLUX" t i).

Definition excluded (t : table) (i : nat) : bool :=
  masked_in "TIME" t i || masked_in "SAP_FLUX" t i.

(** The values of a column of a table, by name. *)
Definition column_data (name : string) (t : table) : list fval :=
  match get_column name t with
  | Some c => data c
  | None => []
  end.

(** The row indices of a table. *)
Definition rows (t : table) : list nat := seq 0 (len t).

(** [filter(table, columnName)]: one pass of the validity filter. *)
Definition filter_by (name : string) (t : table) : table :=
  match get_column name t with
  | Some c => index_rows (keep_mask (len t) c) t
  | None => t
  end.

(** The filter as a single pass over the conjunction of the two row
    predicates. *)
Definition conjunctive_pass (t : table) : table :=
  index_rows (map (survives t) (rows t)) t.

Definition all_finite (l : list fval) : Prop :=
  Forall (fun x => isfinite x = true) l.

(** The names of the columns the run assigns. *)
Definition is_derived_name (name : string) : bool :=
  String.eqb name "BJD_TDB" || String.eqb name "Source_AMag_T1"
  || String.eqb name "Source_AMag_Error_T1".

(** The diagnostics of [derive]: one warning per missing optional input. *)
Definition derive_log (tess : option Qc) (f : table) : list diag :=
  match tess with None => [WarnNoTessmag] | Some _ => [] end ++
  match get_column "SAP_FLUX_ERR" f with
  | None => [WarnNoSapFluxErr]
  | Some _ => []
  end.

(** The table [derive] returns for the table [f] with flux column [flux],
    column by column. *)
Record derived (P : platform) (tess : option Qc) (f : table) (flux : column)
  (out : table) : Prop := {
  derived_flux : get_column "SAP_FLUX" out = Some flux;
  derived_amag :
    column_data "Source_AMag_T1" out =
    source_amag tess (len (add_bjd_tdb f)) (raw_mag P (data flux));
  derived_error :
    forall err, get_column "SAP_FLUX_ERR" f = Some err ->
      column_data "Source_AMag_Error_T1" out = mag_err (data err) (data flux);
  derived_no_error :
    get_column "SAP_FLUX_ERR" f = None ->
      get_column "Source_AMag_Error_T1" out =
      get_column "Source_AMag_Error_T1" f;
  derived_other :
    forall name, is_derived_name name = false ->
      get_column name out = get_column name f;
  derived_wf : wf_table f -> wf_table out /\ len out = len f
}.

(** ** A platform and tables to evaluate the model on *)

(** [np.log10] at the arguments used below: [log10(10) = 1] and
    [log10(20) = 1.3010299956639813], the double numpy returns written as a
    decimal. *)
Definition log10_points (a : Qc) : Qc :=
  if Qeq_bool a (qc 10 1) then qc 1 1
  else if Qeq_bool a (qc 20 1) then qc 13010299956639813 10000000000000000
  else 0.

(** The split of a sequence at the last occurrence of a character. *)
Fixpoint rsplit (c : ascii) (l : list ascii)
  : option (list ascii * list ascii) :=
  match l with
  | [] => None
  | x :: l' =>
      match rsplit c l' with
      | Some (before, after) => Some (x :: before, after)
      | None => if Ascii.eqb x c then Some ([], l') else None
      end
  end.

(** [PurePosixPath.with_suffix] on a path with a non-empty last component:
    the suffix starts at the last dot of that component, unless the dot is
    its first or its last character. *)
Definition posix_with_suffix (p suffix : string) : string :=
  let chars := list_ascii_of_string p in
  let (dir, name) :=
    match rsplit "/" chars with
    | Some (d, n) => (d ++ ["/"%char], n)
    | None => ([], chars)
    end in
  let stem :=
    match rsplit "." name with
    | Some (x :: before, y :: after) => x :: before
    | _ => name
    end in
  string_of_list_ascii (dir ++ stem) ++ suffix.

(** Paths that are already absolute and free of links resolve to
    themselves. *)
Definition posix : platform :=
  {| libm_log10 := log10_points;
     path_resolve := fun p => p;
     path_with_suffix := posix_with_suffix |}.

Definition num (n : Z) : fval := Fin (qc n 1).

Definition plain (l : list fval) : column := {| data := l; mask := None |}.

(** The five-row table of the scenario, and what the filter leaves of it. *)
Definition scenario : table :=
  [ ("TIME", plain [num 1; num 2; NaN; num 4; num 5]);
    ("SAP_FLUX", plain [num 10; num (-1); num 10; num 0; num 20]);
    ("SAP_FLUX_ERR", plain [num 1; num 1; num 1; num 1; num 2]) ]%string.

Definition scenario_flux : column := plain [num 10; num (-1); num 0; num 20].

Definition scenario_filtered : table :=
  [ ("TIME", plain [num 1; num 2; num 4; num 5]);
    ("SAP_FLUX", scenario_flux);
    ("SAP_FLUX_ERR", plain [num 1; num 1; num 1; num 2]) ]%string.

(** The instrumental magnitude of a positive whole flux. *)
Definition mag (P : platform) (flux : Z) : Qc :=
  qc (-25) 10 * libm_log10 P (qc flux 1).

(** A table with the flux column alone. *)
Definition flux_only : table := [ ("SAP_FLUX", plain [num 10]) ]%string.

(** A masked table: the second time stamp and the third flux are masked. *)
Definition masked_table : table :=
  [ ("TIME", {| data := [num 1; num 2; num 3; NaN];
                mask := Some [false; true; false; false] |});
    ("SAP_FLUX", {| data := [num 10; num 20; num 30; num 40];
                    mask := Some [false; false; true; false] |}) ]%string.

(** A directory that holds a light curve, and one that holds only the
    export of an earlier run. *)
Definition lc_file : file :=
  FitsFile [ {| hdu_header := [("TESSMAG"%string, qc 10 1)];
                hdu_payload := OtherPayload |};
             {| hdu_header := [];
                hdu_payload := TablePayload (Some scenario) |} ].

Definition exported_world : world :=
  {| files := [ ("/data/lc.fits", lc_file);
                ("/data/lc.csv", CsvFile flux_only) ]%string;
     writable := fun _ => true |}.

Definition stale_world : world :=
  {| files := [ ("/data/lc.csv", CsvFile flux_only) ]%string;
     writable := fun _ => true |}.

Definition lc_args : args :=
  {| path := "/data/lc.fits"; overwrite := false; zero_point := Fin 0 |}.

(** ** Further row and column predicates *)

(** A flux that is a finite number above zero. *)
Definition is_positive_finite (v : fval) : bool :=
  match v with
  | Fin q => match q ?= 0 with Gt => true | _ => false end
  | _ => false
  end.

(** A flux that is zero. *)
Definition is_zero (v : fval) : bool :=
  match v with
  | Fin q => match q ?= 0 with Eq => true | _ => false end
  | _ => false
  end.

(** A column without NaN and without a masked value. *)
Definition clean (c : column) : Prop :=
  Forall (fun v => isnan v = false) (data c) /\
  match mask c with
  | Some m => Forall (fun b => b = false) m
  | None => True
  end.

(** The column names after an assignment [table[name] = ...]: a name the
    table has stays where it is, a new name goes last. *)
Definition append_name (name : string) (names : list string) : list string :=
  if existsb (String.eqb name) names then names else names ++ [name].

(** The column names of the table the run writes, from those of HDU 1. *)
Definition output_names (t : table) : list string :=
  let n1 := if has_column "TIME" t
            then append_name "BJD_TDB" (colnames t) else colnames t in
  let n2 := append_name "Source_AMag_T1" n1 in
  if has_column "SAP_FLUX_ERR" t
  then append_name "Source_AMag_Error_T1" n2 else n2.

(** The table of HDU 1, when the file has one with data. *)
Definition hdu1_table (hdul : list hdu) : option table :=
  match hdul with
  | _ :: hdu1 :: _ =>
      match hdu_payload hdu1 with
      | TablePayload (Some t) => Some t
      | _ => None
      end
  | _ => None
  end.

(** The primary header, when the file has an HDU 0. *)
Definition primary_header (hdul : list hdu) : header :=
  match hdul with
  | primary :: _ => hdu_header primary
  | [] => []
  end.

(** The structure lines 88-123 ask for: an HDU 1 that is a table with data
    and a column [SAP_FLUX]. *)
Definition exportable (hdul : list hdu) : bool :=
  match hdu1_table hdul with
  | Some t => has_column "SAP_FLUX" t
  | None => false
  end.

(** The destination of a run. *)
Definition destination (P : platform) (a : args) : string :=
  path_with_suffix P (path_resolve P (path a)) ".csv".

(** The world a run leaves behind. *)
Definition world_after (P : platform) (w : world) (a : args) : world :=
  {| files := files_after (main P w a); writable := writable w |}.

(** A directory with the light curve alone, and the command lines used to
    evaluate the runs. *)
Definition fresh_world : world :=
  {| files := [ ("/data/lc.fits", lc_file) ]%string;
     writable := fun _ => true |}.

Definition overwrite_args : args :=
  {| path := "/data/lc.fits"; overwrite := true; zero_point := Fin 0 |}.

(** A file whose HDU 1 is a table without a flux column. *)
Definition no_flux_file : file :=
  FitsFile [ {| hdu_header := []; hdu_payload := OtherPayload |};
             {| hdu_header := [];
                hdu_payload :=
                  TablePayload
                    (Some [ ("TIME"%string, plain [num 1; num 2]) ]) |} ].

Definition no_flux_world : world :=
  {| files := [ ("/data/lc.fits", no_flux_file) ]%string;
     writable := fun _ => true |}.

(** A table whose fluxes are all at or below zero, or infinite. *)
Definition dark_table : table :=
  [ ("SAP_FLUX", plain [num 0; num (-3); PInf]) ]%string.

(** The table [derive] returns for a table [f] with flux column [flux],
    as the three assignments of lines 138, 160-162 and 171. *)
Definition derived_table (P : platform) (tess : option Qc) (f : table)
  (flux : column) : table :=
  let t1 := add_bjd_tdb f in
  let raw := raw_mag P (data flux) in
  let t2 :=
    set_column "Source_AMag_T1"
      {| data := source_amag tess (len t1) raw;
         mask := if any (valid_mask raw) then mask flux else None |} t1 in
  match get_column "SAP_FLUX_ERR" f with
  | Some err =>
      set_column "Source_AMag_Error_T1"
        {| data := mag_err (data err) (data flux);
           mask := or_masks (mask err) (mask flux) |} t2
  | None => t2
  end.

(** The ways through [main], one per return statement: the conditions that
    lead to it and the outcome it gives.  The catch-all handler (status 4)
    has no way of its own: what numpy or astropy could raise on data the
    types of the model leave out (a text column, a text [TESSMAG] card) is
    outside the model. *)
Inductive main_path (P : platform) (w : world) (a : args) : outcome -> Prop :=
| PathBlank :
    is_blank (path a) = true ->
    main_path P w a (mkOutcome 2 [ErrPathRequired] (files w))
| PathInputMissing :
    is_blank (path a) = false ->
    lookup_file (path_resolve P (path a)) (files w) = None ->
    main_path P w a
      (mkOutcome 2 [ErrFileNotFound (path_resolve P (path a))] (files w))
| PathDestinationExists input :
    is_blank (path a) = false ->
    lookup_file (path_resolve P (path a)) (files w) = Some input ->
    path_exists (destination P a) (files w) = true ->
    overwrite a = false ->
    main_path P w a
      (mkOutcome 6 [ErrDestinationExists (destination P a)] (files w))
| PathNotFits input :
    is_blank (path a) = false ->
    lookup_file (path_resolve P (path a)) (files w) = Some input ->
    path_exists (destination P a) (files w) && negb (overwrite a) = false ->
    (forall hdul, input <> FitsFile hdul) ->
    main_path P w a (mkOutcome 3 [ErrOpeningFits] (files w))
| PathStructure hdul d :
    is_blank (path a) = false ->
    lookup_file (path_resolve P (path a)) (files w) = Some (FitsFile hdul) ->
    path_exists (destination P a) (files w) && negb (overwrite a) = false ->
    exportable hdul = false ->
    export_table P hdul = ([d], inr 5%Z) ->
    main_path P w a (mkOutcome 5 [d] (files w))
| PathWriteFails hdul log out :
    is_blank (path a) = false ->
    lookup_file (path_resolve P (path a)) (files w) = Some (FitsFile hdul) ->
    path_exists (destination P a) (files w) && negb (overwrite a) = false ->
    exportable hdul = true ->
    export_table P hdul = (log, inl out) ->
    writable w (destination P a) = false ->
    main_path P w a (mkOutcome 6 (log ++ [ErrWritingCsv]) (files w))
| PathWritten hdul log out :
    is_blank (path a) = false ->
    lookup_file (path_resolve P (path a)) (files w) = Some (FitsFile hdul) ->
    path_exists (destination P a) (files w) && negb (overwrite a) = false ->
    exportable hdul = true ->
    export_table P hdul = (log, inl out) ->
    writable w (destination P a) = true ->
    main_path P w a
      (mkOutcome 0 log
         (store_file (destination P a) (CsvFile out) (files w))).

(** ** The header viewer [show_fits_header.py] *)

Module Show.

(** The parsed command line: the path is optional, [--preview-hdu] has no
    default, [--rows] defaults to 10. *)
Record args : Type := mkArgs {
  path : option string;
  preview_hdu : option Z;
  rows : Z
}.

(** What the script prints on the standard output. *)
Inductive line : Type :=
| Info (hdul : list hdu)
| HeaderOf (index : nat) (h : hdu)
| NotATable (index : Z)
| NoData
| Preview (shown : nat) (t : table).

(** What it writes to the standard error stream. *)
Inductive diag : Type :=
| FileNotFound (p : string)
| InvalidIndex (index : Z) (count : nat)
| OpenFailed
| Unexpected.

Record report : Type := mkReport {
  status : Z;
  stdout : list line;
  stderr : list diag
}.

(** The embedded dataset path, as [Path] keeps it. *)
Definition default_path : string :=
  "tess2019199201929-s0014-s0026-0000000020212631-00353_dvt.fits".

(** [resolve_path]: without an argument, or with a blank one, the embedded
    path, which is not resolved. *)
Definition resolve_path (P : platform) (path_arg : option string) : string :=
  match path_arg with
  | None => default_path
  | Some p => if is_blank p then default_path else path_resolve P p
  end.

(** [print_hdu_headers]: the summary, then one block per HDU in the order
    of [enumerate(hdul)]. *)
Definition print_hdu_headers (hdul : list hdu) : list line :=
  Info hdul ::
  map (fun ih => HeaderOf (fst ih) (snd ih))
      (combine (seq 0 (length hdul)) hdul).

Definition slice_column (k : nat) (c : column) : column :=
  {| data := firstn k (data c);
     mask := option_map (firstn k) (mask c) |}.

(** [table[:k]] *)
Definition slice_rows (k : nat) (t : table) : table :=
  map (fun nc => (fst nc, slice_column k (snd nc))) t.

(** [print_table_preview], on the [data] attribute of a table HDU. *)
Definition print_table_preview (hdu_data : option table) (num_rows : Z)
  : list line :=
  match hdu_data with
  | None => [NoData]
  | Some t =>
      let preview := slice_rows (Z.to_nat (Z.max 0 num_rows)) t in
      [Preview (len preview) preview]
  end.

Definition main (P : platform) (w : world) (a : args) : report :=
  let input_path := resolve_path P (path a) in
  match lookup_file input_path (files w) with
  | None => mkReport 2 [] [FileNotFound input_path]
  | Some (FitsFile hdul) =>
      let printed := print_hdu_headers hdul in
      match preview_hdu a with
      | None => mkReport 0 printed []
      | Some index =>
          if (index <? 0)%Z || (Z.of_nat (length hdul) <=? index)%Z
          then mkReport 5 printed [InvalidIndex index (length hdul)]
          else
            match nth_error hdul (Z.to_nat index) with
            | Some h =>
                match hdu_payload h with
                | TablePayload hdu_data =>
                    mkReport 0
                      (printed ++ print_table_preview hdu_data (rows a)) []
                | OtherPayload => mkReport 0 (printed ++ [NotATable index]) []
                end
            | None => mkReport 4 printed [Unexpected]
            end
      end
  | Some _ => mkReport 3 [] [OpenFailed]
  end.

End Show.

(** A command line of the viewer that previews three rows of HDU 1. *)
Definition show_args : Show.args :=
  {| Show.path := Some "/data/lc.fits"%string;
     Show.preview_hdu := Some 1%Z;
     Show.rows := 3%Z |}.

(** * Properties *)

(** ** Boolean masks and indexing *)

Section Masks.

Context {A : Type}.

Lemma select_nil_r (k : list bool) : select k (@nil A) = [].
Proof. destruct k; reflexivity. Qed.

Lemma length_select (k : list bool) (l : list A) :
  length k = length l -> length (select k l) = count_true k.
Proof.
  revert l; induction k as [|b k IH]; intros [|x l] E; simpl in *;
    try reflexivity; try discriminate.
  injection E as E. destruct b; simpl; rewrite IH by assumption; reflexivity.
Qed.

Lemma select_select (k1 k2 : list bool) (l : list A) :
  select (select k1 k2) (select k1 l) = select (and_mask k1 k2) l.
Proof.
  revert k2 l; induction k1 as [|b1 k1 IH]; intros k2 l; simpl.
  - reflexivity.
  - destruct k2 as [|b2 k2], l as [|x l]; simpl; try reflexivity.
    + apply select_nil_r.
    + destruct b1; simpl; [destruct b2|]; rewrite ?IH; reflexivity.
Qed.

Lemma select_map {B : Type} (f : A -> B) (k : list bool) (l : list A) :
  select k (map f l) = map f (select k l).
Proof.
  revert l; induction k as [|b k IH]; intros [|x l]; simpl; try reflexivity.
  destruct b; simpl; rewrite IH; reflexivity.
Qed.

End Masks.

Lemma and_mask_comm (a b : list bool) : and_mask a b = and_mask b a.
Proof.
  revert b; induction a as [|x a IH]; intros [|y b]; simpl; try reflexivity.
  rewrite IH, andb_comm. reflexivity.
Qed.

Lemma length_and_mask (a b : list bool) :
  length a = length b -> length (and_mask a b) = length a.
Proof.
  revert b; induction a as [|x a IH]; intros [|y b] E; simpl in *;
    try reflexivity; try discriminate.
  injection E as E. rewrite IH by assumption. reflexivity.
Qed.

Lemma select_and_mask (k a b : list bool) :
  select k (and_mask a b) = and_mask (select k a) (select k b).
Proof.
  revert a b; induction k as [|x k IH]; intros a b; simpl.
  - reflexivity.
  - destruct a as [|y a], b as [|z b]; simpl; try reflexivity.
    + destruct x; simpl; destruct (select k a); reflexivity.
    + destruct x; simpl; rewrite IH; reflexivity.
Qed.

Lemma select_repeat_true (k : list bool) :
  select k (repeat true (length k)) = repeat true (count_true k).
Proof.
  induction k as [|b k IH]; simpl.
  - reflexivity.
  - destruct b; unfold count_true in *; simpl; rewrite IH; reflexivity.
Qed.

Lemma count_true_map_seq (f : nat -> bool) (s n : nat) :
  count_true (map f (seq s n)) = length (filter f (seq s n)).
Proof.
  unfold count_true. revert s; induction n as [|n IH]; intro s; simpl.
  - reflexivity.
  - destruct (f s); simpl; rewrite IH; reflexivity.
Qed.

Lemma nth_and_mask (a b : list bool) (i : nat) :
  length a = length b ->
  nth i (and_mask a b) false = nth i a false && nth i b false.
Proof.
  revert b i; induction a as [|x a IH]; intros [|y b] i E; simpl in *;
    try discriminate.
  - destruct i; reflexivity.
  - injection E as E. destruct i; [reflexivity | apply IH; assumption].
Qed.

(** A mask is the list of its bits. *)
Lemma mask_as_seq (m : list bool) :
  m = map (fun i => nth i m false) (seq 0 (length m)).
Proof.
  apply nth_ext with (d := false) (d' := nth 0 m false).
  - rewrite length_map, length_seq. reflexivity.
  - intros i Hi.
    rewrite (map_nth (fun j => nth j m false) (seq 0 (length m)) 0%nat i).
    rewrite seq_nth by exact Hi. reflexivity.
Qed.

(** ** Tables under row selection *)

Lemma get_column_index_rows (name : string) (k : list bool) (t : table) :
  get_column name (index_rows k t) =
  option_map (index_column k) (get_column name t).
Proof.
  induction t as [|[n c] t IH]; simpl.
  - reflexivity.
  - destruct (String.eqb name n); [reflexivity | exact IH].
Qed.

(** The test [name in table.colnames] succeeds exactly when the subscript
    [table[name]] finds a column, so the model matches on the subscript. *)
Lemma has_column_get (name : string) (t : table) :
  has_column name t = true <-> exists c, get_column name t = Some c.
Proof.
  unfold has_column, colnames. induction t as [|[n c] t IH]; simpl.
  - split; [discriminate | intros [c H]; discriminate].
  - destruct (String.eqb name n); simpl.
    + split; [exists c; reflexivity | reflexivity].
    + exact IH.
Qed.

Lemma get_column_wf (name : string) (t : table) (c : column) :
  wf_table t -> get_column name t = Some c -> wf_column (len t) c.
Proof.
  unfold wf_table. generalize (len t) as n. intros n W.
  induction W as [|[m c0] t W0 _ IH]; simpl; intro G.
  - discriminate.
  - destruct (String.eqb name m).
    + injection G as <-. exact W0.
    + apply IH, G.
Qed.

Lemma get_column_nonempty (name : string) (t : table) (c : column) :
  get_column name t = Some c -> t <> [].
Proof. intros G ->. discriminate. Qed.

Lemma len_index_rows (k : list bool) (t : table) :
  wf_table t -> t <> [] -> length k = len t ->
  len (index_rows k t) = count_true k.
Proof.
  intros W N E. destruct t as [|[n c] t]; [contradiction|].
  simpl in *. apply length_select. exact E.
Qed.

Lemma wf_index_column (k : list bool) (n : nat) (c : column) :
  wf_column n c -> length k = n ->
  wf_column (count_true k) (index_column k c).
Proof.
  intros [D M] E. split; simpl.
  - apply length_select. congruence.
  - destruct (mask c) as [m|]; simpl; [|exact I].
    apply length_select. congruence.
Qed.

Lemma wf_index_rows (k : list bool) (t : table) :
  wf_table t -> length k = len t -> wf_table (index_rows k t).
Proof.
  intros W E. destruct t as [|nc0 t0] eqn:Et; [constructor|].
  rewrite <- Et in *. unfold wf_table.
  rewrite len_index_rows by (subst; try assumption; discriminate).
  unfold index_rows. apply Forall_map. simpl.
  eapply Forall_impl; [|exact W]. simpl.
  intros nc Hc. apply wf_index_column with (n := len t); assumption.
Qed.

Lemma index_rows_index_rows (k1 k2 : list bool) (t : table) :
  index_rows (select k1 k2) (index_rows k1 t) = index_rows (and_mask k1 k2) t.
Proof.
  unfold index_rows. rewrite map_map. apply map_ext. intros [n c]; simpl.
  unfold index_column; simpl. rewrite select_select.
  destruct (mask c); simpl; [rewrite select_select|]; reflexivity.
Qed.

Lemma length_keep_mask (n : nat) (c : column) :
  wf_column n c -> length (keep_mask n c) = n.
Proof.
  intros [D M]. unfold keep_mask, not_masked, not_nan.
  destruct (mask c) as [m|].
  - rewrite length_and_mask; rewrite !length_map; congruence.
  - rewrite length_and_mask; rewrite ?length_map, repeat_length; congruence.
Qed.

Lemma keep_mask_index_column (k : list bool) (n : nat) (c : column) :
  wf_column n c -> length k = n ->
  keep_mask (count_true k) (index_column k c) = select k (keep_mask n c).
Proof.
  intros [D M] E. unfold keep_mask, not_masked, not_nan, index_column; simpl.
  rewrite select_and_mask, !select_map. f_equal.
  destruct (mask c) as [m|]; simpl.
  - rewrite select_map. reflexivity.
  - subst n. rewrite <- E. symmetry. apply select_repeat_true.
Qed.

(** Bit [i] of the mask the code builds is the negation of the
    specification's [masked]. *)
Lemma keep_mask_as_seq (n : nat) (c : column) :
  wf_column n c ->
  keep_mask n c = map (fun i => negb (masked c i)) (seq 0 n).
Proof.
  intros W. pose proof (length_keep_mask n c W) as L. destruct W as [D M].
  rewrite (mask_as_seq (keep_mask n c)), L.
  apply map_ext_in. intros i Hi. apply in_seq in Hi. simpl in Hi.
  unfold keep_mask, masked. rewrite nth_and_mask.
  - rewrite negb_orb. f_equal.
    + unfold not_masked. destruct (mask c) as [m|].
      * rewrite (nth_indep _ false (negb true))
          by (rewrite length_map; lia).
        rewrite map_nth. f_equal. apply nth_indep. lia.
      * rewrite (nth_indep _ false true) by (rewrite repeat_length; lia).
        rewrite nth_repeat. reflexivity.
    + unfold not_nan.
      rewrite (nth_indep _ false (negb (isnan (Fin 0))))
        by (rewrite length_map; lia).
      rewrite (map_nth (fun v => negb (isnan v))). reflexivity.
  - unfold not_masked, not_nan. destruct (mask c) as [m|];
      rewrite ?length_map, ?repeat_length; congruence.
Qed.

Lemma and_mask_map {A : Type} (f g : A -> bool) (l : list A) :
  and_mask (map f l) (map g l) = map (fun x => f x && g x) l.
Proof. induction l as [|x l IH]; simpl; [|rewrite IH]; reflexivity. Qed.

(** ** The validity filter *)

Lemma filter_time_by (t : table) : filter_time t = filter_by "TIME" t.
Proof. reflexivity. Qed.

Lemma filter_flux_by (t : table) (c : column) :
  get_column "SAP_FLUX" t = Some c ->
  filter_flux t = ret (filter_by "SAP_FLUX" t).
Proof. unfold filter_flux, filter_by. intros ->. reflexivity. Qed.

Lemma filter_by_twice (n1 n2 : string) (t : table) (c1 c2 : column) :
  wf_table t ->
  get_column n1 t = Some c1 -> get_column n2 t = Some c2 ->
  filter_by n2 (filter_by n1 t) =
  index_rows (and_mask (keep_mask (len t) c1) (keep_mask (len t) c2)) t.
Proof.
  intros W G1 G2.
  pose proof (get_column_wf _ _ _ W G1) as W1.
  pose proof (get_column_wf _ _ _ W G2) as W2.
  pose proof (length_keep_mask _ _ W1) as L1.
  unfold filter_by at 2. rewrite G1.
  unfold filter_by. rewrite get_column_index_rows, G2. simpl.
  rewrite len_index_rows
    by (try assumption; eapply get_column_nonempty; eassumption).
  rewrite (keep_mask_index_column _ (len t)) by assumption.
  apply index_rows_index_rows.
Qed.

Lemma survivors_both (t : table) (ctime cflux : column) :
  wf_table t ->
  get_column "TIME" t = Some ctime -> get_column "SAP_FLUX" t = Some cflux ->
  and_mask (keep_mask (len t) ctime) (keep_mask (len t) cflux) =
  map (survives t) (rows t).
Proof.
  intros W G1 G2.
  rewrite (keep_mask_as_seq _ ctime), (keep_mask_as_seq _ cflux)
    by (eapply get_column_wf; eassumption).
  rewrite and_mask_map. unfold rows, survives, masked_in.
  rewrite G1, G2. reflexivity.
Qed.

Lemma survivors_flux_only (t : table) (cflux : column) :
  wf_table t ->
  get_column "TIME" t = None -> get_column "SAP_FLUX" t = Some cflux ->
  keep_mask (len t) cflux = map (survives t) (rows t).
Proof.
  intros W G1 G2.
  rewrite (keep_mask_as_seq _ cflux) by (eapply get_column_wf; eassumption).
  unfold rows, survives, masked_in. rewrite G1, G2. reflexivity.
Qed.

(** The two passes of the code are the single conjunctive pass, with or
    without a [TIME] column. *)
Lemma filtered_conjunctive (t : table) (cflux : column) :
  wf_table t -> get_column "SAP_FLUX" t = Some cflux ->
  filter_flux (filter_time t) = ret (conjunctive_pass t).
Proof.
  intros W G2. destruct (get_column "TIME" t) as [ctime|] eqn:G1.
  - assert (G2' : get_column "SAP_FLUX" (filter_time t) =
                  Some (index_column (keep_mask (len t) ctime) cflux)).
    { unfold filter_time. rewrite G1, get_column_index_rows, G2. reflexivity. }
    rewrite (filter_flux_by _ _ G2'), filter_time_by.
    rewrite (filter_by_twice _ _ _ _ _ W G1 G2).
    rewrite (survivors_both _ _ _ W G1 G2). reflexivity.
  - unfold filter_time. rewrite G1. rewrite (filter_flux_by _ _ G2).
    unfold filter_by. rewrite G2.
    rewrite (survivors_flux_only _ _ W G1 G2). reflexivity.
Qed.

Lemma len_conjunctive_pass (t : table) :
  wf_table t -> t <> [] ->
  len (conjunctive_pass t) = length (filter (survives t) (rows t)).
Proof.
  intros W N. unfold conjunctive_pass.
  rewrite len_index_rows; try assumption.
  - apply count_true_map_seq.
  - unfold rows. rewrite length_map, length_seq. reflexivity.
Qed.

Lemma wf_conjunctive_pass (t : table) :
  wf_table t -> wf_table (conjunctive_pass t).
Proof.
  intro W. apply wf_index_rows; [exact W|].
  unfold rows. rewrite length_map, length_seq. reflexivity.
Qed.

Lemma survivors_complement (t : table) :
  length (filter (survives t) (rows t)) =
  (len t - length (filter (excluded t) (rows t)))%nat.
Proof.
  pose proof (filter_length (excluded t) (rows t)) as H.
  unfold rows in *. rewrite length_seq in H.
  rewrite (filter_ext (survives t) (fun i => negb (excluded t i))).
  - lia.
  - intro i. unfold survives, excluded. rewrite negb_orb. reflexivity.
Qed.

(** ** Assigning a column *)

Lemma get_set_same (name : string) (c : column) (t : table) :
  get_column name (set_column name c t) = Some c.
Proof.
  induction t as [|[n c0] t IH]; simpl.
  - rewrite String.eqb_refl. reflexivity.
  - destruct (String.eqb name n) eqn:E; simpl; rewrite E; [reflexivity|exact IH].
Qed.

Lemma get_set_other (name name' : string) (c : column) (t : table) :
  String.eqb name' name = false ->
  get_column name' (set_column name c t) = get_column name' t.
Proof.
  intro D. induction t as [|[n c0] t IH]; simpl.
  - rewrite D. reflexivity.
  - destruct (String.eqb name n) eqn:E; simpl.
    + apply String.eqb_eq in E. subst n. rewrite D. reflexivity.
    + rewrite IH. reflexivity.
Qed.

Lemma len_set_column (name : string) (c : column) (t : table) :
  length (data c) = len t -> len (set_column name c t) = len t.
Proof.
  intro L. destruct t as [|[n c0] t]; simpl in *.
  - exact L.
  - destruct (String.eqb name n); simpl; [exact L | reflexivity].
Qed.

Lemma columns_wf_set_column (n : nat) (name : string) (c : column) (t : table) :
  Forall (fun nc => wf_column n (snd nc)) t -> wf_column n c ->
  Forall (fun nc => wf_column n (snd nc)) (set_column name c t).
Proof.
  intros W Wc. induction W as [|[m c0] t W0 W IH]; simpl.
  - constructor; [exact Wc | constructor].
  - destruct (String.eqb name m); constructor; assumption.
Qed.

Lemma wf_set_column (name : string) (c : column) (t : table) :
  wf_table t -> wf_column (len t) c -> wf_table (set_column name c t).
Proof.
  intros W Wc. unfold wf_table.
  rewrite len_set_column by (apply Wc).
  apply columns_wf_set_column; assumption.
Qed.

(** ** The derived columns *)

Lemma bind_ret {A B : Type} (a : A) (k : A -> step B) : bind (ret a) k = k a.
Proof. unfold bind, ret. destruct (k a). reflexivity. Qed.

Lemma add_bjd_tdb_other (name : string) (t : table) :
  String.eqb name "BJD_TDB" = false ->
  get_column name (add_bjd_tdb t) = get_column name t.
Proof.
  intro D. unfold add_bjd_tdb. destruct (get_column "TIME" t); [|reflexivity].
  apply get_set_other, D.
Qed.

Lemma wf_add_bjd_tdb (t : table) :
  wf_table t -> wf_table (add_bjd_tdb t) /\ len (add_bjd_tdb t) = len t.
Proof.
  intro W. unfold add_bjd_tdb.
  destruct (get_column "TIME" t) as [c|] eqn:G; [|split; [exact W|reflexivity]].
  destruct (get_column_wf _ _ _ W G) as [D M].
  split.
  - apply wf_set_column; [exact W|]. split; simpl;
      [rewrite length_map|]; assumption.
  - apply len_set_column. simpl. rewrite length_map. exact D.
Qed.

Lemma is_derived_name_false (name : string) :
  is_derived_name name = false ->
  String.eqb name "BJD_TDB" = false /\
  String.eqb name "Source_AMag_T1" = false /\
  String.eqb name "Source_AMag_Error_T1" = false.
Proof.
  unfold is_derived_name. intro H.
  apply orb_false_iff in H as [H H3]. apply orb_false_iff in H as [H1 H2].
  auto.
Qed.

Section EngineFacts.

Variable P : platform.

Lemma add_source_amag_eq (tess : option Qc) (t : table) (flux : column) :
  get_column "SAP_FLUX" t = Some flux ->
  add_source_amag P tess t =
  ret (set_column "Source_AMag_T1"
         {| data := source_amag tess (len t) (raw_mag P (data flux));
            mask := if any (valid_mask (raw_mag P (data flux)))
                    then mask flux else None |} t).
Proof.
  intro G. unfold add_source_amag, subscript. rewrite G, bind_ret.
  reflexivity.
Qed.

Lemma add_source_amag_error_some (t : table) (err flux : column) :
  get_column "SAP_FLUX_ERR" t = Some err ->
  get_column "SAP_FLUX" t = Some flux ->
  add_source_amag_error t =
  ret (set_column "Source_AMag_Error_T1"
         {| data := mag_err (data err) (data flux);
            mask := or_masks (mask err) (mask flux) |} t).
Proof.
  intros Ge Gf. unfold add_source_amag_error, subscript.
  rewrite Ge, Gf, bind_ret. reflexivity.
Qed.

Lemma add_source_amag_error_none (t : table) :
  get_column "SAP_FLUX_ERR" t = None ->
  add_source_amag_error t = ([WarnNoSapFluxErr], inl t).
Proof. intro Ge. unfold add_source_amag_error. rewrite Ge. reflexivity. Qed.

Lemma length_raw_mag (l : list fval) : length (raw_mag P l) = length l.
Proof. apply length_map. Qed.

Lemma length_source_amag (tess : option Qc) (n : nat) (raw : list fval) :
  length raw = n -> length (source_amag tess n raw) = n.
Proof.
  intro L. unfold source_amag. destruct (any (valid_mask raw)).
  - rewrite length_map. exact L.
  - apply repeat_length.
Qed.

Lemma length_mag_err (err flux : list fval) :
  length err = length flux -> length (mag_err err flux) = length flux.
Proof.
  intro L. unfold mag_err. rewrite length_map, length_combine. lia.
Qed.

Lemma wf_or_masks (n : nat) (c1 c2 : column) :
  wf_column n c1 -> wf_column n c2 ->
  match or_masks (mask c1) (mask c2) with
  | Some m => length m = n
  | None => True
  end.
Proof.
  intros [_ M1] [_ M2].
  destruct (mask c1) as [a|], (mask c2) as [b|]; simpl; try assumption.
  rewrite length_map, length_combine. lia.
Qed.

Lemma derive_columns (tess : option Qc) (f : table) (flux : column) :
  get_column "SAP_FLUX" f = Some flux ->
  exists out,
    derive P tess f = (derive_log tess f, inl out) /\ derived P tess f flux out.
Proof.
  intro G. unfold derive, derive_log.
  set (t1 := add_bjd_tdb f).
  assert (G1 : get_column "SAP_FLUX" t1 = Some flux)
    by (unfold t1; rewrite add_bjd_tdb_other; [exact G|reflexivity]).
  rewrite (add_source_amag_eq tess t1 flux G1), bind_ret.
  set (amag := {| data := source_amag tess (len t1) (raw_mag P (data flux));
                  mask := _ |}).
  set (t2 := set_column "Source_AMag_T1" amag t1).
  assert (G2 : get_column "SAP_FLUX" t2 = Some flux)
    by (unfold t2; rewrite get_set_other; [exact G1|reflexivity]).
  assert (E2 : get_column "SAP_FLUX_ERR" t2 = get_column "SAP_FLUX_ERR" f).
  { unfold t2, t1. rewrite get_set_other, add_bjd_tdb_other; reflexivity. }
  assert (A2 : get_column "Source_AMag_T1" t2 = Some amag)
    by apply get_set_same.
  assert (O2 : forall name, is_derived_name name = false ->
                get_column name t2 = get_column name f).
  { intros name D. apply is_derived_name_false in D as (D1 & D2 & D3).
    unfold t2, t1. rewrite get_set_other, add_bjd_tdb_other; auto. }
  assert (W2 : wf_table f -> wf_table t2 /\ len t2 = len f).
  { intro W. destruct (wf_add_bjd_tdb f W) as [W1 L1]. fold t1 in W1, L1.
    pose proof (get_column_wf _ _ _ W1 G1) as [D M].
    assert (Wa : wf_column (len t1) amag).
    { split; simpl.
      - apply length_source_amag. rewrite length_raw_mag. exact D.
      - destruct (any _); [exact M | exact I]. }
    split.
    - apply wf_set_column; assumption.
    - unfold t2. rewrite len_set_column; [exact L1 | apply Wa]. }
  destruct (get_column "SAP_FLUX_ERR" f) as [err|] eqn:Ge.
  - rewrite (add_source_amag_error_some t2 err flux) by congruence.
    eexists. split; [destruct tess; reflexivity|].
    constructor.
    + rewrite get_set_other; [exact G2|reflexivity].
    + unfold column_data. rewrite get_set_other, A2; reflexivity.
    + intros err' E. assert (err' = err) by congruence. subst err'.
      unfold column_data. rewrite get_set_same. reflexivity.
    + congruence.
    + intros name D. rewrite get_set_other; [apply O2, D|].
      apply is_derived_name_false in D. apply D.
    + intro W. destruct (W2 W) as [Wt2 L2].
      assert (We : wf_column (len t2) err)
        by (eapply get_column_wf; [exact Wt2 | exact E2]).
      pose proof (get_column_wf _ _ _ Wt2 G2) as Wf.
      assert (Wc : wf_column (len t2)
                     {| data := mag_err (data err) (data flux);
                        mask := or_masks (mask err) (mask flux) |}).
      { split; simpl.
        - rewrite length_mag_err; [apply Wf|].
          destruct We as [-> _], Wf as [-> _]. reflexivity.
        - apply wf_or_masks; assumption. }
      split.
      * apply wf_set_column; assumption.
      * rewrite len_set_column; [exact L2 | apply Wc].
  - rewrite (add_source_amag_error_none t2) by congruence.
    exists t2. split; [destruct tess; reflexivity|].
    constructor.
    + exact G2.
    + unfold column_data. rewrite A2. reflexivity.
    + congruence.
    + intros _. unfold t2, t1.
      rewrite get_set_other, add_bjd_tdb_other; reflexivity.
    + exact O2.
    + exact W2.
Qed.

End EngineFacts.

(** ** Sorting and the median under a shift *)

Lemma Qcle_bool_shift (a b c : Qc) :
  Qle_bool (a + c)%Qc (b + c)%Qc = Qle_bool a b.
Proof.
  apply eq_iff_eq_true. rewrite !Qle_bool_iff.
  change ((a + c <= b + c) <-> (a <= b)). split; intro H.
  - apply (Qcplus_le_compat _ _ (- c) (- c)) in H; [|apply Qcle_refl].
    replace (a + c + - c) with a in H by ring.
    replace (b + c + - c) with b in H by ring. exact H.
  - apply Qcplus_le_compat; [exact H | apply Qcle_refl].
Qed.

Lemma fleb_shift (c : Qc) (x y : fval) :
  fleb (fadd x (Fin c)) (fadd y (Fin c)) = fleb x y.
Proof.
  destruct x as [a| | |], y as [b| | |]; simpl; try reflexivity.
  apply Qcle_bool_shift.
Qed.

Section SortMap.

Variable f : fval -> fval.
Hypothesis f_order : forall x y, fleb (f x) (f y) = fleb x y.

Lemma insert_sorted_map (x : fval) (l : list fval) :
  insert_sorted (f x) (map f l) = map f (insert_sorted x l).
Proof.
  induction l as [|y l IH]; simpl.
  - reflexivity.
  - rewrite f_order. destruct (fleb x y); simpl; [|rewrite IH]; reflexivity.
Qed.

Lemma sort_map (l : list fval) : sort (map f l) = map f (sort l).
Proof.
  induction l as [|x l IH]; simpl.
  - reflexivity.
  - rewrite IH. apply insert_sorted_map.
Qed.

End SortMap.

Lemma length_insert_sorted (x : fval) (l : list fval) :
  length (insert_sorted x l) = S (length l).
Proof.
  induction l as [|y l IH]; simpl; [reflexivity|].
  destruct (fleb x y); simpl; [|rewrite IH]; reflexivity.
Qed.

Lemma length_sort (l : list fval) : length (sort l) = length l.
Proof.
  induction l as [|x l IH]; simpl; [reflexivity|].
  rewrite length_insert_sorted, IH. reflexivity.
Qed.

Lemma all_finite_insert_sorted (x : fval) (l : list fval) :
  isfinite x = true -> all_finite l -> all_finite (insert_sorted x l).
Proof.
  intros Hx Hl. induction Hl as [|y l Hy Hl IH]; simpl.
  - constructor; [exact Hx | constructor].
  - destruct (fleb x y); constructor; try assumption.
    constructor; assumption.
Qed.

Lemma all_finite_sort (l : list fval) : all_finite l -> all_finite (sort l).
Proof.
  intro H. induction H as [|x l Hx Hl IH]; simpl.
  - constructor.
  - apply all_finite_insert_sorted; assumption.
Qed.

Lemma all_finite_no_nan (l : list fval) :
  all_finite l -> filter (fun x => negb (isnan x)) l = l.
Proof.
  intro H. induction H as [|x l Hx Hl IH]; simpl; [reflexivity|].
  destruct x; try discriminate. simpl. rewrite IH. reflexivity.
Qed.

Lemma all_finite_nth (l : list fval) (i : nat) :
  all_finite l -> (i < length l)%nat -> exists q, nth i l NaN = Fin q.
Proof.
  intros H Hi. unfold all_finite in H. rewrite Forall_forall in H.
  specialize (H (nth i l NaN) (nth_In l NaN Hi)).
  destruct (nth i l NaN) as [q| | |]; try discriminate. exists q. reflexivity.
Qed.

Lemma all_finite_map_shift (c : Qc) (l : list fval) :
  all_finite l -> all_finite (map (fun x => fadd x (Fin c)) l).
Proof.
  intro H. induction H as [|x l Hx Hl IH]; simpl; constructor; try assumption.
  destruct x; try discriminate. reflexivity.
Qed.

(** The values selected by [np.isfinite] are finite. *)
Lemma all_finite_valid (raw : list fval) :
  all_finite (select (valid_mask raw) raw).
Proof.
  induction raw as [|x raw IH]; simpl; [constructor|].
  destruct (isfinite x) eqn:E; [constructor|]; assumption.
Qed.

Lemma any_valid_nonempty (raw : list fval) :
  any (valid_mask raw) = true -> select (valid_mask raw) raw <> [].
Proof.
  induction raw as [|x raw IH]; simpl; [discriminate|].
  destruct (isfinite x); simpl; [discriminate | exact IH].
Qed.

Lemma nth_map_shift (c : Qc) (l : list fval) (i : nat) :
  nth i (map (fun x => fadd x (Fin c)) l) NaN = fadd (nth i l NaN) (Fin c).
Proof. exact (map_nth (fun x => fadd x (Fin c)) l NaN i). Qed.

Lemma half_lt (n : nat) : n <> 0%nat -> (n / 2 < n)%nat.
Proof. intro H. apply Nat.div_lt; lia. Qed.

(** The median of finite values is finite, and shifting every value by a
    finite amount shifts the median by that amount. *)
Lemma nanmedian_shift (c : Qc) (l : list fval) :
  all_finite l -> l <> [] ->
  exists m, nanmedian l = Fin m /\
            nanmedian (map (fun x => fadd x (Fin c)) l) = Fin (m + c).
Proof.
  intros F N. unfold nanmedian.
  rewrite (all_finite_no_nan _ (all_finite_map_shift c l F)).
  rewrite (all_finite_no_nan l F).
  rewrite (sort_map _ (fleb_shift c)), length_map.
  pose proof (all_finite_sort l F) as Fs.
  pose proof (length_sort l) as Ls.
  set (s := sort l) in *. set (n := length s) in *.
  assert (Hn : n <> 0%nat) by (destruct l; [contradiction | simpl in Ls; lia]).
  destruct (Nat.eqb_spec n 0) as [|_]; [contradiction|].
  pose proof (half_lt n Hn) as Hh.
  destruct (all_finite_nth s (n / 2) Fs Hh) as [b Hb].
  rewrite !nth_map_shift.
  destruct (Nat.odd n).
  - exists b. rewrite Hb. split; reflexivity.
  - assert (Hl : (n / 2 - 1 < length s)%nat) by (fold n; lia).
    destruct (all_finite_nth s (n / 2 - 1) Fs Hl) as [a Ha].
    rewrite Ha, Hb. exists ((a + b) / qc 2 1). split; [reflexivity|].
    simpl. f_equal.
    replace (qc 2 1) with (1 + 1) by (apply Qc_is_canon; reflexivity).
    field. discriminate.
Qed.

(** * The claims *)

(** ** Row counts and the order of the filters *)

Lemma process_filtered (P : platform) (tess : option Qc) (t : table)
  (cflux : column) :
  wf_table t -> get_column "SAP_FLUX" t = Some cflux ->
  process P tess t = derive P tess (conjunctive_pass t).
Proof.
  intros W G. unfold process.
  rewrite (filtered_conjunctive t cflux W G). apply bind_ret.
Qed.

(** C4: the output has as many rows as the input has rows that are neither
    masked-or-NaN in [TIME] nor masked-or-NaN in [SAP_FLUX]: the input row
    count minus the size of the union of the two exclusion sets, the time
    term being absent when the table has no [TIME] column.  Every column of
    the input is cut down to exactly those rows. *)
Theorem output_row_count (P : platform) (tess : option Qc) (t : table)
  (cflux : column) :
  wf_table t -> get_column "SAP_FLUX" t = Some cflux ->
  exists log out,
    process P tess t = (log, inl out) /\
    len out = (len t - length (filter (excluded t) (rows t)))%nat /\
    len out = length (filter (survives t) (rows t)) /\
    forall name, is_derived_name name = false ->
      get_column name out =
      option_map (index_column (map (survives t) (rows t)))
                 (get_column name t).
Proof.
  intros W G. rewrite (process_filtered P tess t cflux W G).
  assert (Gf : get_column "SAP_FLUX" (conjunctive_pass t) =
               Some (index_column (map (survives t) (rows t)) cflux)).
  { unfold conjunctive_pass. rewrite get_column_index_rows, G. reflexivity. }
  destruct (derive_columns P tess _ _ Gf) as (out & E & D).
  exists (derive_log tess (conjunctive_pass t)), out.
  destruct (derived_wf _ _ _ _ _ D (wf_conjunctive_pass t W)) as [_ L].
  assert (N : t <> []) by (eapply get_column_nonempty; exact G).
  rewrite L, (len_conjunctive_pass t W N).
  repeat split.
  - exact E.
  - apply survivors_complement.
  - intros name Hn. rewrite (derived_other _ _ _ _ _ D name Hn).
    apply get_column_index_rows.
Qed.

Lemma wf_masked_table : wf_table masked_table.
Proof. repeat constructor. Qed.

Lemma wf_scenario : wf_table scenario.
Proof. repeat constructor. Qed.

Lemma output_row_count_witness :
  exists log out,
    process posix (Some (qc 10 1)) masked_table = (log, inl out) /\
    len out = (len masked_table
               - length (filter (excluded masked_table) (rows masked_table)))%nat /\
    len out = length (filter (survives masked_table) (rows masked_table)) /\
    forall name, is_derived_name name = false ->
      get_column name out =
      option_map (index_column (map (survives masked_table) (rows masked_table)))
                 (get_column name masked_table).
Proof.
  exact (output_row_count posix (Some (qc 10 1)) masked_table _
           wf_masked_table eq_refl).
Defined.

(** C8: on a table with both columns, filtering by [TIME] and then by
    [SAP_FLUX] (what the code does), filtering in the opposite order, and
    one pass over the conjunction of the two row predicates all give the
    same table: the rows not masked in time and not masked in flux. *)
Theorem filter_order_irrelevant (t : table) (ctime cflux : column) :
  wf_table t ->
  get_column "TIME" t = Some ctime -> get_column "SAP_FLUX" t = Some cflux ->
  filter_flux (filter_time t) = ret (conjunctive_pass t) /\
  filter_by "SAP_FLUX" (filter_by "TIME" t) = conjunctive_pass t /\
  filter_by "TIME" (filter_by "SAP_FLUX" t) = conjunctive_pass t.
Proof.
  intros W G1 G2. split; [|split].
  - exact (filtered_conjunctive t cflux W G2).
  - rewrite (filter_by_twice _ _ _ _ _ W G1 G2).
    rewrite (survivors_both _ _ _ W G1 G2). reflexivity.
  - rewrite (filter_by_twice _ _ _ _ _ W G2 G1), and_mask_comm.
    rewrite (survivors_both _ _ _ W G1 G2). reflexivity.
Qed.

Lemma filter_order_irrelevant_witness :
  filter_flux (filter_time masked_table) = ret (conjunctive_pass masked_table) /\
  filter_by "SAP_FLUX" (filter_by "TIME" masked_table) =
    conjunctive_pass masked_table /\
  filter_by "TIME" (filter_by "SAP_FLUX" masked_table) =
    conjunctive_pass masked_table.
Proof.
  exact (filter_order_irrelevant masked_table _ _ wf_masked_table
           eq_refl eq_refl).
Defined.

(** ** Calibration *)

Lemma fadd_zero (x : fval) : fadd x (Fin 0) = x.
Proof. destruct x; simpl; try reflexivity. rewrite Qcplus_0_r. reflexivity. Qed.

Lemma source_amag_valid (tess : option Qc) (n : nat) (raw : list fval) :
  any (valid_mask raw) = true ->
  source_amag tess n raw = map (fun m => fadd m (zero_point_of tess raw)) raw.
Proof. intro V. unfold source_amag. rewrite V. reflexivity. Qed.

(** With a reference magnitude the zero point is finite, and the median of
    the shifted finite magnitudes is the reference. *)
Lemma median_recentred (ref : Qc) (raw : list fval) :
  any (valid_mask raw) = true ->
  nanmedian
    (select (valid_mask raw)
       (map (fun m => fadd m (zero_point_of (Some ref) raw)) raw)) = Fin ref.
Proof.
  intro V. rewrite select_map.
  pose proof (all_finite_valid raw) as F.
  pose proof (any_valid_nonempty raw V) as N.
  destruct (nanmedian_shift 0 _ F N) as (m & Hm & _).
  unfold zero_point_of. rewrite Hm. simpl.
  destruct (nanmedian_shift (ref + - m) _ F N) as (m' & Hm' & ->).
  assert (m' = m) by congruence. subst m'. f_equal. ring.
Qed.

(** C1: when [TESSMAG] is present ([export_table] hands the card of the
    primary header to [derive]) and some instrumental magnitude is finite,
    the run returns a table whose calibrated magnitudes, taken over exactly
    the rows with a finite instrumental magnitude, have the reference
    magnitude as their median.  Arithmetic is exact in the model, so the
    tolerance of the claim is the rounding the model leaves out. *)
Theorem calibration_recenters_median (P : platform) (f : table)
  (flux : column) (ref : Qc) :
  get_column "SAP_FLUX" f = Some flux ->
  any (valid_mask (raw_mag P (data flux))) = true ->
  exists out,
    derive P (Some ref) f = (derive_log (Some ref) f, inl out) /\
    nanmedian
      (select (valid_mask (raw_mag P (data flux)))
              (column_data "Source_AMag_T1" out)) = Fin ref.
Proof.
  intros G V. destruct (derive_columns P (Some ref) f flux G) as (out & E & D).
  exists out. split; [exact E|].
  rewrite (derived_amag _ _ _ _ _ D), (source_amag_valid _ _ _ V).
  apply median_recentred, V.
Qed.

Lemma calibration_recenters_median_witness :
  exists out,
    derive posix (Some (qc 10 1)) scenario_filtered =
      (derive_log (Some (qc 10 1)) scenario_filtered, inl out) /\
    nanmedian
      (select (valid_mask (raw_mag posix (data scenario_flux)))
              (column_data "Source_AMag_T1" out)) = Fin (qc 10 1).
Proof.
  apply (calibration_recenters_median posix scenario_filtered scenario_flux).
  - reflexivity.
  - vm_compute. reflexivity.
Defined.

(** C2, as the code has it: without [TESSMAG] the zero point is 0, not the
    negative median, so each calibrated magnitude is the instrumental
    magnitude of its row plus a zero point of 0. *)
Theorem absent_reference_zero_point (P : platform) (f : table) (flux : column)
  (i : nat) (m : fval) :
  get_column "SAP_FLUX" f = Some flux ->
  any (valid_mask (raw_mag P (data flux))) = true ->
  nth_error (raw_mag P (data flux)) i = Some m ->
  zero_point_of None (raw_mag P (data flux)) = Fin 0 /\
  exists out,
    derive P None f = (derive_log None f, inl out) /\
    nth_error (column_data "Source_AMag_T1" out) i = Some (fadd m (Fin 0)).
Proof.
  intros G V Hm. split; [reflexivity|].
  destruct (derive_columns P None f flux G) as (out & E & D).
  exists out. split; [exact E|].
  rewrite (derived_amag _ _ _ _ _ D), (source_amag_valid _ _ _ V).
  apply (map_nth_error (fun x => fadd x (zero_point_of None _))), Hm.
Qed.

Lemma absent_reference_zero_point_witness :
  zero_point_of None (raw_mag posix (data (plain [num 10]))) = Fin 0 /\
  exists out,
    derive posix None flux_only = (derive_log None flux_only, inl out) /\
    nth_error (column_data "Source_AMag_T1" out) 0 =
    Some (fadd (Fin (qc (-25) 10 * libm_log10 posix (qc 10 1))) (Fin 0)).
Proof.
  apply (absent_reference_zero_point posix flux_only (plain [num 10]) 0).
  - reflexivity.
  - vm_compute. reflexivity.
  - reflexivity.
Defined.

(** C3: without [TESSMAG], and with some finite instrumental magnitude, the
    zero point is 0 and the column [Source_AMag_T1] is the instrumental
    magnitude column [-2.5 * log10(flux)], value for value. *)
Theorem absent_reference_keeps_instrumental (P : platform) (f : table)
  (flux : column) :
  get_column "SAP_FLUX" f = Some flux ->
  any (valid_mask (raw_mag P (data flux))) = true ->
  zero_point_of None (raw_mag P (data flux)) = Fin 0 /\
  exists out,
    derive P None f = (derive_log None f, inl out) /\
    column_data "Source_AMag_T1" out = raw_mag P (data flux).
Proof.
  intros G V. split; [reflexivity|].
  destruct (derive_columns P None f flux G) as (out & E & D).
  exists out. split; [exact E|].
  rewrite (derived_amag _ _ _ _ _ D), (source_amag_valid _ _ _ V).
  simpl. rewrite (map_ext _ (fun x => x)) by apply fadd_zero.
  apply map_id.
Qed.

Lemma absent_reference_keeps_instrumental_witness :
  zero_point_of None (raw_mag posix (data scenario_flux)) = Fin 0 /\
  exists out,
    derive posix None scenario_filtered =
      (derive_log None scenario_filtered, inl out) /\
    column_data "Source_AMag_T1" out = raw_mag posix (data scenario_flux).
Proof.
  apply (absent_reference_keeps_instrumental posix scenario_filtered).
  - reflexivity.
  - vm_compute. reflexivity.
Defined.

Lemma feqb_refl (x : fval) : feqb x x = true.
Proof. destruct x; simpl; try reflexivity. apply Qeq_bool_refl. Qed.

Lemma feqb_neq (x y : fval) : feqb x y = false -> x <> y.
Proof. intros H ->. rewrite feqb_refl in H. discriminate. Qed.

(** C2 as stated fails: on the one-row table with flux 10 the instrumental
    magnitude is -2.5, its median is -2.5, and the claim asks for a zero
    point of 2.5 and a calibrated magnitude of 0; the code uses 0 and
    returns -2.5. *)
Lemma negative_median_default_refuted :
  any (valid_mask (raw_mag posix [num 10])) = true /\
  zero_point_of None (raw_mag posix [num 10]) <>
  fsub (Fin 0)
       (nanmedian (select (valid_mask (raw_mag posix [num 10]))
                          (raw_mag posix [num 10]))) /\
  exists out,
    derive posix None flux_only = (derive_log None flux_only, inl out) /\
    nth 0 (column_data "Source_AMag_T1" out) NaN <>
    fsub (nth 0 (raw_mag posix [num 10]) NaN)
         (nanmedian (select (valid_mask (raw_mag posix [num 10]))
                            (raw_mag posix [num 10]))).
Proof.
  split; [vm_compute; reflexivity|]. split.
  - apply feqb_neq. vm_compute. reflexivity.
  - eexists. split; [reflexivity|].
    apply feqb_neq. vm_compute. reflexivity.
Qed.

(** ** Rows whose flux is not positive *)

Section NonPositive.

Variable P : platform.

Lemma raw_mag_nonpositive (v : fval) :
  fleb v (Fin 0) = true ->
  fmul (Fin (qc (-25) 10)) (log10 P v) = PInf \/
  fmul (Fin (qc (-25) 10)) (log10 P v) = NaN.
Proof.
  destruct v as [q| | |]; simpl; intro H; try discriminate.
  - apply Qle_bool_iff, Qle_alt in H.
    destruct (q ?= 0) eqn:C; [left | right | exfalso; exact (H C)];
      reflexivity.
  - right. reflexivity.
Qed.

Lemma fadd_not_finite (m z : fval) :
  m = PInf \/ m = NaN -> isfinite (fadd m z) = false.
Proof. intros [-> | ->]; destruct z; reflexivity. Qed.

Lemma source_amag_not_finite (tess : option Qc) (n i : nat)
  (raw : list fval) (m : fval) :
  length raw = n -> nth_error raw i = Some m -> m = PInf \/ m = NaN ->
  exists a, nth_error (source_amag tess n raw) i = Some a /\
            isfinite a = false.
Proof.
  intros L Hm Hv. unfold source_amag. destruct (any (valid_mask raw)).
  - exists (fadd m (zero_point_of tess raw)). split.
    + apply (map_nth_error (fun x => fadd x (zero_point_of tess raw))), Hm.
    + apply fadd_not_finite, Hv.
  - exists NaN. split; [|reflexivity].
    apply nth_error_repeat. rewrite <- L. apply nth_error_Some. congruence.
Qed.

End NonPositive.

(** C5: a row of the filtered table whose flux is at most 0 is a row of the
    output, with its flux; its instrumental magnitude and its calibrated
    magnitude are not finite; and [np.isfinite] leaves it out of the values
    the median is taken over. *)
Theorem nonpositive_flux_row_kept (P : platform) (tess : option Qc)
  (f : table) (flux : column) (i : nat) (v : fval) :
  wf_table f -> get_column "SAP_FLUX" f = Some flux ->
  nth_error (data flux) i = Some v -> fleb v (Fin 0) = true ->
  exists out,
    derive P tess f = (derive_log tess f, inl out) /\
    len out = len f /\
    nth_error (column_data "SAP_FLUX" out) i = Some v /\
    (exists m, nth_error (raw_mag P (data flux)) i = Some m /\
               isfinite m = false) /\
    (exists a, nth_error (column_data "Source_AMag_T1" out) i = Some a /\
               isfinite a = false) /\
    nth_error (valid_mask (raw_mag P (data flux))) i = Some false.
Proof.
  intros W G Hv Hle.
  destruct (derive_columns P tess f flux G) as (out & E & D).
  pose proof (raw_mag_nonpositive P v Hle) as Hm.
  set (m := fmul (Fin (qc (-25) 10)) (log10 P v)) in *.
  assert (Hr : nth_error (raw_mag P (data flux)) i = Some m)
    by (apply (map_nth_error (fun x => fmul _ (log10 P x))), Hv).
  assert (Hf : isfinite m = false) by (destruct Hm as [-> | ->]; reflexivity).
  exists out. split; [exact E|].
  destruct (derived_wf _ _ _ _ _ D W) as [_ L].
  split; [exact L|]. split; [|split; [|split]].
  - unfold column_data. rewrite (derived_flux _ _ _ _ _ D). exact Hv.
  - exists m. split; assumption.
  - rewrite (derived_amag _ _ _ _ _ D).
    apply source_amag_not_finite with (m := m); try assumption.
    rewrite length_raw_mag. destruct (wf_add_bjd_tdb f W) as [_ ->].
    apply (get_column_wf _ _ _ W G).
  - unfold valid_mask. rewrite (map_nth_error isfinite _ _ Hr), Hf.
    reflexivity.
Qed.

Lemma wf_scenario_filtered : wf_table scenario_filtered.
Proof. repeat constructor. Qed.

Lemma nonpositive_flux_row_kept_witness :
  exists out,
    derive posix (Some (qc 10 1)) scenario_filtered =
      (derive_log (Some (qc 10 1)) scenario_filtered, inl out) /\
    len out = len scenario_filtered /\
    nth_error (column_data "SAP_FLUX" out) 2 = Some (num 0) /\
    (exists m, nth_error (raw_mag posix (data scenario_flux)) 2 = Some m /\
               isfinite m = false) /\
    (exists a, nth_error (column_data "Source_AMag_T1" out) 2 = Some a /\
               isfinite a = false) /\
    nth_error (valid_mask (raw_mag posix (data scenario_flux))) 2 = Some false.
Proof.
  apply (nonpositive_flux_row_kept posix (Some (qc 10 1)) scenario_filtered
           scenario_flux 2 (num 0) wf_scenario_filtered).
  - reflexivity.
  - reflexivity.
  - vm_compute. reflexivity.
Defined.

(** ** The magnitude uncertainty *)

Lemma nth_error_combine {A B : Type} (l1 : list A) (l2 : list B) (i : nat)
  (a : A) (b : B) :
  nth_error l1 i = Some a -> nth_error l2 i = Some b ->
  nth_error (combine l1 l2) i = Some (a, b).
Proof.
  revert l2 i; induction l1 as [|x l1 IH]; intros [|y l2] [|i] H1 H2;
    simpl in *; try discriminate.
  - congruence.
  - apply IH; assumption.
Qed.

(** C7: with a column [SAP_FLUX_ERR] the run assigns a column
    [Source_AMag_Error_T1] with one value per row of the filtered table,
    the value of each row being [1.0857 * (fluxError / flux)] whatever it
    is, finite or not.  Without it the run adds no such column, reports the
    warning and still returns its table. *)
Theorem magnitude_uncertainty_column (P : platform) (tess : option Qc)
  (f : table) (flux : column) :
  wf_table f -> get_column "SAP_FLUX" f = Some flux ->
  exists out,
    derive P tess f = (derive_log tess f, inl out) /\
    match get_column "SAP_FLUX_ERR" f with
    | Some err =>
        length (column_data "Source_AMag_Error_T1" out) = len f /\
        forall i e v,
          nth_error (data err) i = Some e ->
          nth_error (data flux) i = Some v ->
          nth_error (column_data "Source_AMag_Error_T1" out) i =
          Some (fmul (Fin (qc 10857 10000)) (fdiv e v))
    | None =>
        get_column "Source_AMag_Error_T1" out =
        get_column "Source_AMag_Error_T1" f /\
        In WarnNoSapFluxErr (derive_log tess f)
    end.
Proof.
  intros W G. destruct (derive_columns P tess f flux G) as (out & E & D).
  exists out. split; [exact E|].
  destruct (get_column "SAP_FLUX_ERR" f) as [err|] eqn:Ge.
  - rewrite (derived_error _ _ _ _ _ D err Ge).
    destruct (get_column_wf _ _ _ W G) as [Lf _].
    destruct (get_column_wf _ _ _ W Ge) as [Le _].
    split.
    + rewrite length_mag_err; congruence.
    + intros i e v He Hv. unfold mag_err.
      apply (map_nth_error
               (fun p => fmul (Fin (qc 10857 10000)) (fdiv (fst p) (snd p)))
               i (combine (data err) (data flux))
               (nth_error_combine _ _ _ _ _ He Hv)).
  - split; [exact (derived_no_error _ _ _ _ _ D Ge)|].
    unfold derive_log. rewrite Ge. apply in_or_app. right. left. reflexivity.
Qed.

Lemma magnitude_uncertainty_column_witness :
  exists out,
    derive posix (Some (qc 10 1)) scenario_filtered =
      (derive_log (Some (qc 10 1)) scenario_filtered, inl out) /\
    match get_column "SAP_FLUX_ERR" scenario_filtered with
    | Some err =>
        length (column_data "Source_AMag_Error_T1" out) =
        len scenario_filtered /\
        forall i e v,
          nth_error (data err) i = Some e ->
          nth_error (data scenario_flux) i = Some v ->
          nth_error (column_data "Source_AMag_Error_T1" out) i =
          Some (fmul (Fin (qc 10857 10000)) (fdiv e v))
    | None =>
        get_column "Source_AMag_Error_T1" out =
        get_column "Source_AMag_Error_T1" scenario_filtered /\
        In WarnNoSapFluxErr (derive_log (Some (qc 10 1)) scenario_filtered)
    end.
Proof.
  exact (magnitude_uncertainty_column posix (Some (qc 10 1))
           scenario_filtered scenario_flux wf_scenario_filtered eq_refl).
Defined.

(** ** The five-row scenario *)

Lemma two_is_one_plus_one : qc 2 1 = 1 + 1.
Proof. apply Qc_is_canon. reflexivity. Qed.

Lemma nanmedian_pair (a b : Qc) :
  nanmedian [Fin a; Fin b] = Fin ((a + b) / qc 2 1).
Proof.
  unfold nanmedian. simpl filter. simpl sort.
  destruct (Qle_bool a b); simpl; f_equal; rewrite two_is_one_plus_one;
    field; discriminate.
Qed.

Lemma scenario_is_filtered : conjunctive_pass scenario = scenario_filtered.
Proof. reflexivity. Qed.

Lemma scenario_raw_mag (P : platform) :
  raw_mag P (data scenario_flux) = [Fin (mag P 10); NaN; PInf; Fin (mag P 20)].
Proof. reflexivity. Qed.

(** C6, as the code has it: the filter drops the row with the NaN time and
    leaves the four rows with flux 10, -1, 0, 20; the magnitudes of the rows
    with flux 10 and 20 are the finite ones; the zero point is the reference
    minus the median of these two, their mean; and the calibrated magnitudes
    of the two rows lie on either side of the reference, at
    [10 + (mag 10 - mag 20) / 2] and [10 + (mag 20 - mag 10) / 2]. *)
Theorem scenario_calibration (P : platform) :
  exists out,
    filter_flux (filter_time scenario) = ret scenario_filtered /\
    process P (Some (qc 10 1)) scenario = ([], inl out) /\
    len out = 4%nat /\
    column_data "SAP_FLUX" out = [num 10; num (-1); num 0; num 20] /\
    valid_mask (raw_mag P (column_data "SAP_FLUX" out)) =
      [true; false; false; true] /\
    zero_point_of (Some (qc 10 1)) (raw_mag P (column_data "SAP_FLUX" out)) =
      fsub (Fin (qc 10 1)) (nanmedian [Fin (mag P 10); Fin (mag P 20)]) /\
    nth_error (column_data "Source_AMag_T1" out) 0 =
      Some (Fin (qc 10 1 + (mag P 10 - mag P 20) / qc 2 1)) /\
    nth_error (column_data "Source_AMag_T1" out) 3 =
      Some (Fin (qc 10 1 + (mag P 20 - mag P 10) / qc 2 1)).
Proof.
  pose proof (filtered_conjunctive scenario _ wf_scenario eq_refl) as Hf.
  rewrite scenario_is_filtered in Hf.
  destruct (derive_columns P (Some (qc 10 1)) scenario_filtered scenario_flux
              eq_refl) as (out & E & D).
  exists out. split; [exact Hf|]. split.
  { rewrite (process_filtered P _ scenario _ wf_scenario eq_refl).
    rewrite scenario_is_filtered. exact E. }
  destruct (derived_wf _ _ _ _ _ D wf_scenario_filtered) as [_ L].
  split; [exact L|].
  assert (Hflux : column_data "SAP_FLUX" out = data scenario_flux)
    by (unfold column_data; rewrite (derived_flux _ _ _ _ _ D); reflexivity).
  rewrite Hflux, (derived_amag _ _ _ _ _ D), (scenario_raw_mag P).
  split; [reflexivity|]. split; [reflexivity|]. split; [reflexivity|].
  rewrite source_amag_valid by reflexivity.
  unfold zero_point_of. simpl select. rewrite nanmedian_pair.
  split; simpl; do 2 f_equal; rewrite two_is_one_plus_one; field; discriminate.
Qed.

(** C6 as stated fails: with [log10 10 = 1] and [log10 20 = 1.30103...] the
    calibrated magnitude of the row with flux 10 is 10.376..., not the
    reference magnitude 10, and that of the row with flux 20 is 9.623...,
    not [10 + (mag 20 - mag 10)]. *)
Lemma scenario_reference_refuted :
  exists out,
    process posix (Some (qc 10 1)) scenario = ([], inl out) /\
    nth 0 (column_data "Source_AMag_T1" out) NaN <> Fin (qc 10 1) /\
    nth 3 (column_data "Source_AMag_T1" out) NaN <>
    Fin (qc 10 1 + (mag posix 20 - mag posix 10)).
Proof.
  eexists. split; [reflexivity|].
  split; apply feqb_neq; vm_compute; reflexivity.
Qed.

(** ** The command line and the destination *)

(** C9, as the code has it: with a path argument that is not blank and an
    input file that exists, an existing destination and no [--overwrite]
    end the run with status 6 and the destination-exists message, before
    the input is opened, and every file is as it was. *)
Theorem destination_exists_guard (P : platform) (w : world) (a : args)
  (input : file) :
  is_blank (path a) = false ->
  lookup_file (path_resolve P (path a)) (files w) = Some input ->
  path_exists (path_with_suffix P (path_resolve P (path a)) ".csv") (files w)
    = true ->
  overwrite a = false ->
  exit_code (main P w a) = 6%Z /\
  stderr (main P w a) =
    [ErrDestinationExists
       (path_with_suffix P (path_resolve P (path a)) ".csv")] /\
  files_after (main P w a) = files w.
Proof.
  intros B I D O. unfold main, run, resolve_path.
  rewrite B, bind_ret, I, D, O. simpl. repeat split.
Qed.

Lemma destination_exists_guard_witness :
  exit_code (main posix exported_world lc_args) = 6%Z /\
  stderr (main posix exported_world lc_args) =
    [ErrDestinationExists
       (path_with_suffix posix (path_resolve posix (path lc_args)) ".csv")] /\
  files_after (main posix exported_world lc_args) = files exported_world.
Proof.
  apply (destination_exists_guard posix exported_world lc_args lc_file);
    reflexivity.
Defined.

(** C9 as stated fails: when the input file is gone and the export of an
    earlier run is still there, the destination exists and [--overwrite] is
    not given, yet the run ends with status 2 (file not found), not 6. *)
Lemma destination_guard_after_input_check :
  path_exists
    (path_with_suffix posix (path_resolve posix (path lc_args)) ".csv")
    (files stale_world) = true /\
  overwrite lc_args = false /\
  exit_code (main posix stale_world lc_args) = 2%Z /\
  exit_code (main posix stale_world lc_args) <> 6%Z.
Proof. repeat split. discriminate. Qed.

(** A run on a FITS file whose HDU 1 is a well-formed table with a flux
    column, with a free or overwritable destination that can be written,
    ends with status 0 and stores the table [derive] returns for the
    filtered table. *)
Lemma main_exports (P : platform) (w : world) (a : args) (primary : hdu)
  (h1 : header) (t : table) (rest : list hdu) (cflux : column) :
  let input_path := path_resolve P (path a) in
  let csv_path := path_with_suffix P input_path ".csv" in
  let tess := header_get "TESSMAG" (hdu_header primary) in
  is_blank (path a) = false ->
  lookup_file input_path (files w) =
    Some (FitsFile (primary :: mkHdu h1 (TablePayload (Some t)) :: rest)) ->
  path_exists csv_path (files w) && negb (overwrite a) = false ->
  writable w csv_path = true ->
  wf_table t -> get_column "SAP_FLUX" t = Some cflux ->
  exists out,
    derive P tess (conjunctive_pass t) =
      (derive_log tess (conjunctive_pass t), inl out) /\
    exit_code (main P w a) = 0%Z /\
    stderr (main P w a) = derive_log tess (conjunctive_pass t) /\
    files_after (main P w a) = store_file csv_path (CsvFile out) (files w).
Proof.
  intros input_path csv_path tess B I D Wr W G.
  assert (Gf : get_column "SAP_FLUX" (conjunctive_pass t) =
               Some (index_column (map (survives t) (rows t)) cflux)).
  { unfold conjunctive_pass. rewrite get_column_index_rows, G. reflexivity. }
  destruct (derive_columns P tess _ _ Gf) as (out & E & _).
  exists out. split; [exact E|].
  unfold main, run, resolve_path. rewrite B, bind_ret.
  fold input_path. rewrite I. fold csv_path. rewrite D.
  unfold fits_open. rewrite bind_ret. unfold export_table. simpl hdu_payload.
  cbv beta iota. fold tess. rewrite (process_filtered P tess t cflux W G), E.
  unfold bind. rewrite Wr. simpl. rewrite app_nil_r. repeat split.
Qed.

(** C10: the value of [--zero-point] is never read: two runs that differ
    only in it end with the same status, the same diagnostics and the same
    files, the written table included. *)
Theorem zero_point_option_ignored (P : platform) (w : world) (p : string)
  (o : bool) (z1 z2 : fval) :
  main P w {| path := p; overwrite := o; zero_point := z1 |} =
  main P w {| path := p; overwrite := o; zero_point := z2 |}.
Proof. reflexivity. Qed.

(** * Further properties of the export *)

(** ** What the filter guarantees *)

Lemma select_seq_Forall {A : Type} (pred : nat -> bool) (Q : A -> Prop)
  (d : A) (l : list A) (s : nat) :
  (forall i, (i < length l)%nat -> pred (s + i)%nat = true -> Q (nth i l d)) ->
  Forall Q (select (map pred (seq s (length l))) l).
Proof.
  revert s; induction l as [|x l IH]; intros s H; simpl.
  - constructor.
  - assert (Hl : Forall Q (select (map pred (seq (S s) (length l))) l)).
    { apply IH. intros i Hi Hp. apply (H (S i)); simpl; [lia|].
      rewrite Nat.add_succ_r. exact Hp. }
    destruct (pred s) eqn:Hs; [|exact Hl].
    constructor; [|exact Hl].
    apply (H 0%nat); simpl; [lia|]. rewrite Nat.add_0_r. exact Hs.
Qed.

Lemma clean_index_column (pred : nat -> bool) (n : nat) (c : column) :
  wf_column n c ->
  (forall i, (i < n)%nat -> pred i = true -> masked c i = false) ->
  clean (index_column (map pred (seq 0 n)) c).
Proof.
  intros [D M] H. unfold masked in H. split; simpl.
  - rewrite <- D. apply select_seq_Forall with (d := Fin 0).
    intros i Hi Hp. rewrite D in Hi. specialize (H i Hi Hp).
    apply orb_false_iff in H. apply H.
  - destruct (mask c) as [m|]; simpl; [|exact I].
    rewrite <- M. apply select_seq_Forall with (d := false).
    intros i Hi Hp. rewrite M in Hi. specialize (H i Hi Hp).
    apply orb_false_iff in H. apply H.
Qed.

Lemma survives_unmasked (t : table) (i : nat) :
  survives t i = true ->
  masked_in "TIME" t i = false /\ masked_in "SAP_FLUX" t i = false.
Proof.
  unfold survives. intro H. apply andb_true_iff in H as [H1 H2].
  apply negb_true_iff in H1, H2. split; assumption.
Qed.

(** What [process] returns on a well-formed table with a flux column: the
    table [derive] builds from the single conjunctive pass. *)
Lemma process_columns (P : platform) (tess : option Qc) (t : table)
  (cflux : column) :
  wf_table t -> get_column "SAP_FLUX" t = Some cflux ->
  exists out,
    process P tess t = (derive_log tess (conjunctive_pass t), inl out) /\
    derived P tess (conjunctive_pass t)
      (index_column (map (survives t) (rows t)) cflux) out.
Proof.
  intros W G. rewrite (process_filtered P tess t cflux W G).
  apply derive_columns. unfold conjunctive_pass.
  rewrite get_column_index_rows, G. reflexivity.
Qed.

(** X1: every value of [TIME] and of [SAP_FLUX] in the table that is
    written is a number, not NaN, and carries no mask bit: the rows the two
    passes of lines 105-135 let through are valid in both columns. *)
Theorem output_time_and_flux_clean (P : platform) (tess : option Qc)
  (t : table) (cflux : column) :
  wf_table t -> get_column "SAP_FLUX" t = Some cflux ->
  exists log out,
    process P tess t = (log, inl out) /\
    (forall c, get_column "SAP_FLUX" out = Some c -> clean c) /\
    (forall c, get_column "TIME" out = Some c -> clean c).
Proof.
  intros W G. destruct (process_columns P tess t cflux W G) as (out & E & D).
  exists (derive_log tess (conjunctive_pass t)), out. split; [exact E|].
  assert (K : forall name c0 c,
             is_derived_name name = false ->
             get_column name t = Some c0 ->
             (forall i, survives t i = true -> masked_in name t i = false) ->
             get_column name out = Some c -> clean c).
  { intros name c0 c Hn G0 Hs Go.
    rewrite (derived_other _ _ _ _ _ D name Hn) in Go.
    unfold conjunctive_pass in Go.
    rewrite get_column_index_rows, G0 in Go. simpl in Go.
    injection Go as <-. unfold rows.
    apply clean_index_column; [eapply get_column_wf; eassumption|].
    intros i _ Hp. specialize (Hs i Hp). unfold masked_in in Hs.
    rewrite G0 in Hs. exact Hs. }
  split.
  - intros c. apply (K "SAP_FLUX"%string cflux c eq_refl G).
    intros i Hi. apply (survives_unmasked t i Hi).
  - intros c Go. destruct (get_column "TIME" t) as [ctime|] eqn:Gt.
    + apply (K "TIME"%string ctime c eq_refl Gt); [|exact Go].
      intros i Hi. apply (survives_unmasked t i Hi).
    + rewrite (derived_other _ _ _ _ _ D "TIME"%string eq_refl) in Go.
      unfold conjunctive_pass in Go.
      rewrite get_column_index_rows, Gt in Go. discriminate.
Qed.

Lemma output_time_and_flux_clean_witness :
  exists log out,
    process posix None masked_table = (log, inl out) /\
    (forall c, get_column "SAP_FLUX" out = Some c -> clean c) /\
    (forall c, get_column "TIME" out = Some c -> clean c).
Proof.
  exact (output_time_and_flux_clean posix None masked_table _
           wf_masked_table eq_refl).
Defined.

Lemma and_mask_diag (k : list bool) : and_mask k k = k.
Proof.
  induction k as [|b k IH]; simpl; [reflexivity|].
  rewrite IH, andb_diag. reflexivity.
Qed.

(** X2: one pass of the validity filter is idempotent: filtering a table by
    a column it has already been filtered by removes no further row. *)
Theorem filter_by_idempotent (name : string) (t : table) :
  wf_table t -> filter_by name (filter_by name t) = filter_by name t.
Proof.
  intro W. destruct (get_column name t) as [c|] eqn:G.
  - rewrite (filter_by_twice name name t c c W G G), and_mask_diag.
    unfold filter_by. rewrite G. reflexivity.
  - unfold filter_by. rewrite G, G. reflexivity.
Qed.

Lemma filter_by_idempotent_witness :
  filter_by "TIME" (filter_by "TIME" masked_table) =
  filter_by "TIME" masked_table.
Proof. exact (filter_by_idempotent "TIME" masked_table wf_masked_table). Defined.

(** X3: the table that is written is well formed: every column, the
    derived ones included, has exactly one value per surviving row, and a
    mask has one bit per value. *)
Theorem output_well_formed (P : platform) (tess : option Qc) (t : table)
  (cflux : column) :
  wf_table t -> get_column "SAP_FLUX" t = Some cflux ->
  exists log out,
    process P tess t = (log, inl out) /\
    wf_table out /\
    forall name c, get_column name out = Some c ->
      length (data c) = length (filter (survives t) (rows t)).
Proof.
  intros W G. destruct (process_columns P tess t cflux W G) as (out & E & D).
  exists (derive_log tess (conjunctive_pass t)), out. split; [exact E|].
  destruct (derived_wf _ _ _ _ _ D (wf_conjunctive_pass t W)) as [Wo L].
  split; [exact Wo|]. intros name c Gc.
  destruct (get_column_wf _ _ _ Wo Gc) as [-> _].
  rewrite L. apply len_conjunctive_pass; [exact W|].
  eapply get_column_nonempty; exact G.
Qed.

Lemma output_well_formed_witness :
  exists log out,
    process posix (Some (qc 10 1)) scenario = (log, inl out) /\
    wf_table out /\
    forall name c, get_column name out = Some c ->
      length (data c) = length (filter (survives scenario) (rows scenario)).
Proof.
  exact (output_well_formed posix (Some (qc 10 1)) scenario _
           wf_scenario eq_refl).
Defined.

(** ** The columns of the written table *)

Lemma derive_explicit (P : platform) (tess : option Qc) (f : table)
  (flux : column) :
  get_column "SAP_FLUX" f = Some flux ->
  derive P tess f = (derive_log tess f, inl (derived_table P tess f flux)).
Proof.
  intro G. unfold derive, derive_log, derived_table.
  set (t1 := add_bjd_tdb f).
  assert (G1 : get_column "SAP_FLUX" t1 = Some flux)
    by (unfold t1; rewrite add_bjd_tdb_other; [exact G|reflexivity]).
  rewrite (add_source_amag_eq P tess t1 flux G1), bind_ret.
  set (t2 := set_column "Source_AMag_T1" _ t1).
  assert (G2 : get_column "SAP_FLUX" t2 = Some flux)
    by (unfold t2; rewrite get_set_other; [exact G1|reflexivity]).
  assert (E2 : get_column "SAP_FLUX_ERR" t2 = get_column "SAP_FLUX_ERR" f).
  { unfold t2, t1. rewrite get_set_other, add_bjd_tdb_other; reflexivity. }
  destruct (get_column "SAP_FLUX_ERR" f) as [err|] eqn:Ge.
  - rewrite (add_source_amag_error_some t2 err flux E2 G2).
    destruct tess; reflexivity.
  - rewrite (add_source_amag_error_none t2 E2).
    destruct tess; reflexivity.
Qed.

Lemma process_explicit (P : platform) (tess : option Qc) (t : table)
  (cflux : column) :
  wf_table t -> get_column "SAP_FLUX" t = Some cflux ->
  process P tess t =
  (derive_log tess (conjunctive_pass t),
   inl (derived_table P tess (conjunctive_pass t)
          (index_column (map (survives t) (rows t)) cflux))).
Proof.
  intros W G. rewrite (process_filtered P tess t cflux W G).
  apply derive_explicit. unfold conjunctive_pass.
  rewrite get_column_index_rows, G. reflexivity.
Qed.

Lemma has_column_as_get (name : string) (t : table) :
  has_column name t =
  match get_column name t with Some _ => true | None => false end.
Proof.
  unfold has_column, colnames. induction t as [|[n c] t IH]; simpl.
  - reflexivity.
  - destruct (String.eqb name n); simpl; [reflexivity | exact IH].
Qed.

Lemma colnames_index_rows (k : list bool) (t : table) :
  colnames (index_rows k t) = colnames t.
Proof.
  unfold colnames, index_rows. rewrite map_map. reflexivity.
Qed.

Lemma colnames_set_column (name : string) (c : column) (t : table) :
  colnames (set_column name c t) = append_name name (colnames t).
Proof.
  unfold append_name, colnames. induction t as [|[n c0] t IH]; simpl.
  - reflexivity.
  - destruct (String.eqb name n) eqn:E; simpl.
    + reflexivity.
    + rewrite IH.
      destruct (existsb (String.eqb name) (map fst t)); reflexivity.
Qed.

(** X4: the columns of the written table are those of HDU 1, in their
    order, followed by [BJD_TDB] (when there is a [TIME] column),
    [Source_AMag_T1] and [Source_AMag_Error_T1] (when there is a
    [SAP_FLUX_ERR] column), in this order; a derived name the input already
    uses keeps its place instead of being added. *)
Theorem output_column_order (P : platform) (tess : option Qc) (t : table)
  (cflux : column) :
  wf_table t -> get_column "SAP_FLUX" t = Some cflux ->
  exists log out,
    process P tess t = (log, inl out) /\ colnames out = output_names t.
Proof.
  intros W G. eexists _, _. split; [exact (process_explicit P tess t _ W G)|].
  unfold derived_table, output_names.
  set (f := conjunctive_pass t).
  assert (Nf : colnames f = colnames t) by apply colnames_index_rows.
  assert (Hc : forall name, get_column name f =
                 option_map (index_column (map (survives t) (rows t)))
                            (get_column name t))
    by (intro name; apply get_column_index_rows).
  assert (N1 : colnames (add_bjd_tdb f) =
               if has_column "TIME" t
               then append_name "BJD_TDB" (colnames t) else colnames t).
  { unfold add_bjd_tdb. rewrite has_column_as_get, Hc.
    destruct (get_column "TIME" t); simpl;
      [rewrite colnames_set_column|]; rewrite Nf; reflexivity. }
  rewrite (has_column_as_get "SAP_FLUX_ERR"), Hc.
  destruct (get_column "SAP_FLUX_ERR" t); simpl;
    rewrite !colnames_set_column, N1; reflexivity.
Qed.

Lemma output_column_order_witness :
  exists log out,
    process posix (Some (qc 10 1)) scenario = (log, inl out) /\
    colnames out = output_names scenario.
Proof.
  exact (output_column_order posix (Some (qc 10 1)) scenario _
           wf_scenario eq_refl).
Defined.

Lemma isnan_shift (c : Qc) (v : fval) : isnan (fadd v (Fin c)) = isnan v.
Proof. destruct v; reflexivity. Qed.

(** X5: with a [TIME] column, the written table keeps the filtered [TIME]
    column as it is and gains [BJD_TDB], whose value in each row is the time
    of the row plus 2457000; no value of [BJD_TDB] is NaN. *)
Theorem bjd_tdb_column (P : platform) (tess : option Qc) (t : table)
  (ctime cflux : column) :
  wf_table t ->
  get_column "TIME" t = Some ctime -> get_column "SAP_FLUX" t = Some cflux ->
  exists log out,
    process P tess t = (log, inl out) /\
    get_column "TIME" out =
      Some (index_column (map (survives t) (rows t)) ctime) /\
    column_data "BJD_TDB" out =
      map (fun v => fadd v (Fin (qc 2457000 1))) (column_data "TIME" out) /\
    Forall (fun v => isnan v = false) (column_data "BJD_TDB" out).
Proof.
  intros W Gt G. eexists _, _.
  split; [exact (process_explicit P tess t _ W G)|].
  set (f := conjunctive_pass t).
  set (tc := index_column (map (survives t) (rows t)) ctime).
  assert (Gf : get_column "TIME" f = Some tc)
    by (unfold f, conjunctive_pass; rewrite get_column_index_rows, Gt;
        reflexivity).
  set (out := derived_table P tess f _).
  assert (Go : get_column "TIME" out = Some tc).
  { unfold out, derived_table.
    destruct (get_column "SAP_FLUX_ERR" f);
      rewrite ?(get_set_other "Source_AMag_Error_T1") by reflexivity;
      rewrite get_set_other, add_bjd_tdb_other by reflexivity; exact Gf. }
  assert (Gb : column_data "BJD_TDB" out =
               map (fun v => fadd v (Fin (qc 2457000 1))) (data tc)).
  { unfold column_data, out, derived_table.
    destruct (get_column "SAP_FLUX_ERR" f);
      rewrite ?(get_set_other "Source_AMag_Error_T1") by reflexivity;
      rewrite get_set_other by reflexivity;
      unfold add_bjd_tdb; rewrite Gf, get_set_same; reflexivity. }
  split; [exact Go|]. split.
  - rewrite Gb. unfold column_data. rewrite Go. reflexivity.
  - rewrite Gb. apply Forall_map.
    assert (C : clean tc).
    { apply clean_index_column; [eapply get_column_wf; eassumption|].
      intros i _ Hp. destruct (survives_unmasked t i Hp) as [H _].
      unfold masked_in in H. rewrite Gt in H. exact H. }
    eapply Forall_impl; [|apply C]. simpl. intros v Hv.
    rewrite isnan_shift. exact Hv.
Qed.

Lemma bjd_tdb_column_witness :
  exists log out,
    process posix None masked_table = (log, inl out) /\
    get_column "TIME" out =
      Some (index_column (map (survives masked_table) (rows masked_table))
              {| data := [num 1; num 2; num 3; NaN];
                 mask := Some [false; true; false; false] |}) /\
    column_data "BJD_TDB" out =
      map (fun v => fadd v (Fin (qc 2457000 1))) (column_data "TIME" out) /\
    Forall (fun v => isnan v = false) (column_data "BJD_TDB" out).
Proof.
  exact (bjd_tdb_column posix None masked_table _ _ wf_masked_table
           eq_refl eq_refl).
Defined.

(** ** Which rows calibrate *)

Lemma any_map {A : Type} (f : A -> bool) (l : list A) :
  any (map f l) = existsb f l.
Proof.
  unfold any. induction l as [|x l IH]; simpl; [|rewrite IH]; reflexivity.
Qed.

Lemma raw_mag_positive (P : platform) (q : Qc) :
  0 < q ->
  fmul (Fin (qc (-25) 10)) (log10 P (Fin q)) =
  Fin (qc (-25) 10 * libm_log10 P q).
Proof.
  intro H. apply (proj1 (Qcgt_alt q 0)) in H. simpl. rewrite H. reflexivity.
Qed.

Lemma isfinite_raw_mag (P : platform) (v : fval) :
  isfinite (fmul (Fin (qc (-25) 10)) (log10 P v)) = is_positive_finite v.
Proof.
  destruct v as [q| | |]; simpl; try reflexivity.
  destruct (q ?= 0); reflexivity.
Qed.

(** X6: the instrumental magnitude of a row is finite exactly when its flux
    is a finite number above zero: zero, negative and infinite fluxes all
    fall outside [valid_mask] (lines 146-150). *)
Theorem valid_mask_positive_finite (P : platform) (flux : list fval) :
  valid_mask (raw_mag P flux) = map is_positive_finite flux.
Proof.
  unfold valid_mask, raw_mag. rewrite map_map. apply map_ext.
  apply isfinite_raw_mag.
Qed.

Lemma any_valid_positive (P : platform) (flux : list fval) :
  any (valid_mask (raw_mag P flux)) = existsb is_positive_finite flux.
Proof.
  unfold valid_mask, raw_mag. rewrite map_map.
  rewrite (map_ext _ is_positive_finite (isfinite_raw_mag P)).
  apply any_map.
Qed.

(** X7: when no flux is a finite number above zero (an empty table
    included), every value of [Source_AMag_T1] is NaN, whether [TESSMAG] is
    there or not (line 162). *)
Theorem no_positive_flux_all_nan (P : platform) (tess : option Qc) (f : table)
  (flux : column) :
  wf_table f -> get_column "SAP_FLUX" f = Some flux ->
  existsb is_positive_finite (data flux) = false ->
  exists out,
    derive P tess f = (derive_log tess f, inl out) /\
    column_data "Source_AMag_T1" out = repeat NaN (len f).
Proof.
  intros W G H. destruct (derive_columns P tess f flux G) as (out & E & D).
  exists out. split; [exact E|].
  rewrite (derived_amag _ _ _ _ _ D). unfold source_amag.
  rewrite any_valid_positive, H.
  destruct (wf_add_bjd_tdb f W) as [_ ->]. reflexivity.
Qed.

Lemma wf_dark_table : wf_table dark_table.
Proof. repeat constructor. Qed.

Lemma no_positive_flux_all_nan_witness :
  exists out,
    derive posix (Some (qc 10 1)) dark_table =
      (derive_log (Some (qc 10 1)) dark_table, inl out) /\
    column_data "Source_AMag_T1" out = repeat NaN (len dark_table).
Proof.
  apply (no_positive_flux_all_nan posix (Some (qc 10 1)) dark_table
           (plain [num 0; num (-3); PInf]) wf_dark_table);
    reflexivity.
Defined.

Lemma zero_point_finite (tess : option Qc) (raw : list fval) :
  any (valid_mask raw) = true -> exists z, zero_point_of tess raw = Fin z.
Proof.
  intro V. unfold zero_point_of. destruct tess as [ref|].
  - destruct (nanmedian_shift 0 _ (all_finite_valid raw)
                (any_valid_nonempty raw V)) as (m & -> & _).
    exists (ref + - m). reflexivity.
  - exists 0. reflexivity.
Qed.

(** X8: when some flux is a finite number above zero, the zero point is a
    finite number [z], and the calibrated magnitude of every row with such a
    flux [q] is the finite number [-2.5 * log10 q + z]: calibration shifts
    all these rows by the same amount, so the difference of the magnitudes
    of two rows is what it was before calibration. *)
Theorem calibration_uniform_shift (P : platform) (tess : option Qc)
  (f : table) (flux : column) :
  get_column "SAP_FLUX" f = Some flux ->
  existsb is_positive_finite (data flux) = true ->
  exists z out,
    derive P tess f = (derive_log tess f, inl out) /\
    zero_point_of tess (raw_mag P (data flux)) = Fin z /\
    forall i q,
      nth_error (data flux) i = Some (Fin q) -> 0 < q ->
      nth_error (column_data "Source_AMag_T1" out) i =
      Some (Fin (qc (-25) 10 * libm_log10 P q + z)).
Proof.
  intros G H.
  assert (V : any (valid_mask (raw_mag P (data flux))) = true)
    by (rewrite any_valid_positive; exact H).
  destruct (zero_point_finite tess _ V) as [z Hz].
  destruct (derive_columns P tess f flux G) as (out & E & D).
  exists z, out. split; [exact E|]. split; [exact Hz|].
  intros i q Hi Hq.
  rewrite (derived_amag _ _ _ _ _ D), (source_amag_valid _ _ _ V), Hz.
  unfold raw_mag. rewrite map_map.
  rewrite (map_nth_error _ _ _ Hi), (raw_mag_positive P q Hq). reflexivity.
Qed.

Lemma calibration_uniform_shift_witness :
  exists z out,
    derive posix (Some (qc 10 1)) scenario_filtered =
      (derive_log (Some (qc 10 1)) scenario_filtered, inl out) /\
    zero_point_of (Some (qc 10 1)) (raw_mag posix (data scenario_flux)) =
      Fin z /\
    forall i q,
      nth_error (data scenario_flux) i = Some (Fin q) -> 0 < q ->
      nth_error (column_data "Source_AMag_T1" out) i =
      Some (Fin (qc (-25) 10 * libm_log10 posix q + z)).
Proof.
  apply (calibration_uniform_shift posix (Some (qc 10 1)) scenario_filtered
           scenario_flux); reflexivity.
Defined.

(** ** When the uncertainty is finite *)

Lemma mag_err_finite (e v : fval) :
  isfinite (fmul (Fin (qc 10857 10000)) (fdiv e v)) =
  isfinite e && negb (is_zero v) && negb (isnan v).
Proof.
  destruct e as [a| | |], v as [b| | |]; simpl; try reflexivity.
  - destruct (b ?= 0); try reflexivity. destruct (a ?= 0); reflexivity.
  - destruct (b ?= 0); reflexivity.
  - destruct (b ?= 0); reflexivity.
Qed.

(** X9: the uncertainty of a row is a finite number exactly when the flux
    error of the row is finite and its flux is neither zero nor NaN: a zero
    flux always gives a non-finite uncertainty, while a negative flux, whose
    magnitude is NaN, still gets a finite one (lines 165-171). *)
Theorem uncertainty_finite_iff (P : platform) (tess : option Qc) (f : table)
  (flux err : column) (i : nat) (e v : fval) :
  get_column "SAP_FLUX" f = Some flux ->
  get_column "SAP_FLUX_ERR" f = Some err ->
  nth_error (data err) i = Some e -> nth_error (data flux) i = Some v ->
  exists out u,
    derive P tess f = (derive_log tess f, inl out) /\
    nth_error (column_data "Source_AMag_Error_T1" out) i = Some u /\
    isfinite u = isfinite e && negb (is_zero v) && negb (isnan v).
Proof.
  intros G Ge He Hv. destruct (derive_columns P tess f flux G) as (out & E & D).
  exists out, (fmul (Fin (qc 10857 10000)) (fdiv e v)).
  split; [exact E|]. split; [|apply mag_err_finite].
  rewrite (derived_error _ _ _ _ _ D err Ge). unfold mag_err.
  apply (map_nth_error
           (fun p => fmul (Fin (qc 10857 10000)) (fdiv (fst p) (snd p)))
           i (combine (data err) (data flux))
           (nth_error_combine _ _ _ _ _ He Hv)).
Qed.

Lemma uncertainty_finite_iff_witness :
  exists out u,
    derive posix None scenario_filtered =
      (derive_log None scenario_filtered, inl out) /\
    nth_error (column_data "Source_AMag_Error_T1" out) 2 = Some u /\
    isfinite u =
      isfinite (num 1) && negb (is_zero (num 0)) && negb (isnan (num 0)).
Proof.
  apply (uncertainty_finite_iff posix None scenario_filtered scenario_flux
           (plain [num 1; num 1; num 1; num 2]) 2 (num 1) (num 0));
    reflexivity.
Defined.

(** ** The ways through [main] *)

Lemma filter_time_other (name : string) (t : table) :
  get_column name (filter_time t) = None <-> get_column name t = None.
Proof.
  unfold filter_time. destruct (get_column "TIME" t); [|reflexivity].
  rewrite get_column_index_rows. destruct (get_column name t); simpl;
    split; congruence.
Qed.

(** [process] fails exactly when the table has no flux column, whatever
    the lengths of its columns. *)
Lemma process_cases (P : platform) (tess : option Qc) (t : table) :
  (get_column "SAP_FLUX" t = None /\
   process P tess t = ([ErrNoSapFlux], inr 5%Z)) \/
  (exists f out,
     get_column "SAP_FLUX" t <> None /\
     (forall name, get_column name f = None <-> get_column name t = None) /\
     process P tess t = (derive_log tess f, inl out)).
Proof.
  unfold process, filter_flux.
  destruct (get_column "SAP_FLUX" (filter_time t)) as [c|] eqn:G.
  - right. rewrite bind_ret.
    set (f := index_rows (keep_mask (len (filter_time t)) c) (filter_time t)).
    assert (Gf : get_column "SAP_FLUX" f =
                 Some (index_column (keep_mask (len (filter_time t)) c) c))
      by (unfold f; rewrite get_column_index_rows, G; reflexivity).
    destruct (derive_columns P tess f _ Gf) as (out & E & _).
    exists f, out. split; [|split; [|exact E]].
    + intro H. apply filter_time_other in H. congruence.
    + intro name. unfold f. rewrite get_column_index_rows.
      rewrite <- (filter_time_other name t).
      destruct (get_column name (filter_time t)); simpl; split; congruence.
  - left. split; [apply filter_time_other, G | reflexivity].
Qed.

Lemma export_table_cases (P : platform) (hdul : list hdu) :
  (exportable hdul = false /\ exists d, export_table P hdul = ([d], inr 5%Z)) \/
  (exportable hdul = true /\
   exists log out, export_table P hdul = (log, inl out)).
Proof.
  unfold exportable, hdu1_table, export_table.
  destruct hdul as [|primary [|hdu1 rest]];
    try (left; split; [reflexivity | eexists; reflexivity]).
  destruct (hdu_payload hdu1) as [[t|]|];
    try (left; split; [reflexivity | eexists; reflexivity]).
  rewrite has_column_as_get.
  destruct (process_cases P (header_get "TESSMAG" (hdu_header primary)) t)
    as [[G E] | (f & out & G & _ & E)].
  - left. rewrite G. split; [reflexivity | eexists; exact E].
  - right. destruct (get_column "SAP_FLUX" t); [|contradiction].
    split; [reflexivity | eexists _, _; exact E].
Qed.

(** Every run takes one of the ways of [main_path]. *)
Lemma main_path_total (P : platform) (w : world) (a : args) :
  main_path P w a (main P w a).
Proof.
  unfold main, run, resolve_path.
  destruct (is_blank (path a)) eqn:B; [apply PathBlank, B|].
  rewrite bind_ret.
  destruct (lookup_file (path_resolve P (path a)) (files w)) as [input|] eqn:I;
    [|apply PathInputMissing; assumption].
  fold (destination P a).
  destruct (path_exists (destination P a) (files w) && negb (overwrite a))
    eqn:D.
  { apply andb_true_iff in D as [D O]. apply negb_true_iff in O.
    eapply PathDestinationExists; eassumption. }
  destruct input as [hdul| |];
    try (eapply PathNotFits; [eassumption..|discriminate]).
  unfold fits_open. rewrite bind_ret.
  destruct (export_table_cases P hdul) as [[X [d E]] | [X (log & out & E)]];
    rewrite E; unfold bind.
  - eapply PathStructure; eassumption.
  - destruct (writable w (destination P a)) eqn:Wr; simpl.
    + rewrite app_nil_r. eapply PathWritten; eassumption.
    + eapply PathWriteFails; eassumption.
Qed.

Lemma lookup_store_same (p : string) (f : file) (fs : list (string * file)) :
  lookup_file p (store_file p f fs) = Some f.
Proof.
  induction fs as [|[q g] fs IH]; simpl.
  - rewrite String.eqb_refl. reflexivity.
  - destruct (String.eqb p q) eqn:E; simpl; rewrite E; [reflexivity|exact IH].
Qed.

Lemma lookup_store_other (p p' : string) (f : file)
  (fs : list (string * file)) :
  p' <> p -> lookup_file p' (store_file p f fs) = lookup_file p' fs.
Proof.
  intro N. apply String.eqb_neq in N.
  induction fs as [|[q g] fs IH]; simpl.
  - rewrite N. reflexivity.
  - destruct (String.eqb p q) eqn:E; simpl.
    + apply String.eqb_eq in E. subst q. rewrite N. reflexivity.
    + rewrite IH. reflexivity.
Qed.

Lemma store_store (p : string) (f g : file) (fs : list (string * file)) :
  store_file p f (store_file p g fs) = store_file p f fs.
Proof.
  induction fs as [|[q h] fs IH]; simpl.
  - rewrite String.eqb_refl. reflexivity.
  - destruct (String.eqb p q) eqn:E; simpl; rewrite E; [|rewrite IH];
      reflexivity.
Qed.

Ltac guard_clash :=
  match goal with
  | D : path_exists ?d ?fs && negb ?o = false,
    E : path_exists ?d ?fs = true, O : ?o = false |- _ =>
      rewrite E, O in D; discriminate D
  end.

(** Case analysis on the way a run takes. *)
Ltac by_path P w a :=
  destruct (main_path_total P w a)
    as [B'|B' I'|input B' I' D' O'|input B' I' D' N'|hdul d B' I' D' X' E'
       |hdul log out B' I' D' X' E' Wr'|hdul log out B' I' D' X' E' Wr'];
  simpl.

Ltac clash :=
  exfalso;
  first [ congruence
        | guard_clash
        | match goal with
          | N : forall h, _ <> FitsFile h |- _ => eapply N; congruence
          end ].

(** X10: a destination that exists is never replaced without
    [--overwrite]: whatever else holds of the run (the input may be missing
    or broken), it ends with a non-zero status and every file is as it
    was. *)
Theorem existing_destination_kept (P : platform) (w : world) (a : args) :
  overwrite a = false ->
  path_exists (destination P a) (files w) = true ->
  exit_code (main P w a) <> 0%Z /\ files_after (main P w a) = files w.
Proof.
  intros O D. by_path P w a; try (split; [discriminate | reflexivity]).
  clash.
Qed.

Lemma existing_destination_kept_witness :
  exit_code (main posix stale_world lc_args) <> 0%Z /\
  files_after (main posix stale_world lc_args) = files stale_world.
Proof.
  apply (existing_destination_kept posix stale_world lc_args); reflexivity.
Defined.

(** X11: a run changes no file other than its destination: every other
    path holds after the run what it held before, the input included when
    it is not itself the destination. *)
Theorem only_destination_touched (P : platform) (w : world) (a : args)
  (p : string) :
  p <> destination P a ->
  lookup_file p (files_after (main P w a)) = lookup_file p (files w).
Proof.
  intro N. by_path P w a; try reflexivity.
  apply lookup_store_other, N.
Qed.

Lemma only_destination_touched_witness :
  lookup_file "/data/lc.fits" (files_after (main posix fresh_world lc_args)) =
  lookup_file "/data/lc.fits" (files fresh_world).
Proof.
  apply (only_destination_touched posix fresh_world lc_args).
  discriminate.
Defined.


(** X13: a run ends with status 2 exactly when the path argument is blank
    or no file is at the resolved input path. *)
Theorem exit_two_iff (P : platform) (w : world) (a : args) :
  exit_code (main P w a) = 2%Z <->
  is_blank (path a) = true \/
  lookup_file (path_resolve P (path a)) (files w) = None.
Proof.
  split.
  - by_path P w a; intro E; try discriminate E; auto.
  - intros [B | I]; by_path P w a; try reflexivity; clash.
Qed.




Lemma export_table_process (P : platform) (hdul : list hdu) (t : table) :
  hdu1_table hdul = Some t ->
  export_table P hdul =
  process P (header_get "TESSMAG" (primary_header hdul)) t.
Proof.
  unfold hdu1_table, export_table, primary_header.
  destruct hdul as [|primary [|hdu1 rest]]; try discriminate.
  destruct (hdu_payload hdu1) as [[t'|]|]; try discriminate.
  intros [= ->]. reflexivity.
Qed.

Lemma exportable_table (hdul : list hdu) :
  exportable hdul = true -> exists t, hdu1_table hdul = Some t.
Proof.
  unfold exportable. destruct (hdu1_table hdul) as [t|]; [|discriminate].
  intros _. exists t. reflexivity.
Qed.

(** X17: after a run that ends with status 0 the destination holds the
    table [process] returns for the table of HDU 1 and the [TESSMAG] card
    of the primary header, whatever the destination held before, and the
    diagnostics of the run are those of [process]. *)
Theorem destination_holds_processed_table (P : platform) (w : world)
  (a : args) :
  exit_code (main P w a) = 0%Z ->
  exists hdul t out,
    lookup_file (path_resolve P (path a)) (files w) = Some (FitsFile hdul) /\
    hdu1_table hdul = Some t /\
    process P (header_get "TESSMAG" (primary_header hdul)) t =
      (stderr (main P w a), inl out) /\
    lookup_file (destination P a) (files_after (main P w a)) =
      Some (CsvFile out).
Proof.
  by_path P w a; intro E; try discriminate E.
  destruct (exportable_table hdul X') as [t Ht].
  exists hdul, t, out. repeat split; try assumption.
  - rewrite <- (export_table_process P hdul t Ht). exact E'.
  - apply lookup_store_same.
Qed.

Lemma destination_holds_processed_table_witness :
  exists hdul t out,
    lookup_file (path_resolve posix (path overwrite_args))
                (files exported_world) = Some (FitsFile hdul) /\
    hdu1_table hdul = Some t /\
    process posix (header_get "TESSMAG" (primary_header hdul)) t =
      (stderr (main posix exported_world overwrite_args), inl out) /\
    lookup_file (destination posix overwrite_args)
                (files_after (main posix exported_world overwrite_args)) =
      Some (CsvFile out).
Proof.
  apply (destination_holds_processed_table posix exported_world
           overwrite_args).
  reflexivity.
Defined.

(** X18: running the export again with [--overwrite] changes nothing: when
    a run with [--overwrite] has ended with status 0 and the input is not
    its own destination, a second run on the files it left ends with the
    same status and diagnostics and leaves the same files. *)
Theorem rerun_with_overwrite (P : platform) (w : world) (a : args) :
  overwrite a = true ->
  exit_code (main P w a) = 0%Z ->
  path_resolve P (path a) <> destination P a ->
  main P (world_after P w a) a = main P w a.
Proof.
  intros O E N. unfold world_after. revert E.
  by_path P w a; intro E; try discriminate E.
  unfold main, run, resolve_path. rewrite B', bind_ret. simpl files.
  rewrite (lookup_store_other _ _ _ _ N), I'.
  fold (destination P a). rewrite O, andb_false_r.
  unfold fits_open. rewrite bind_ret, E'. unfold bind.
  simpl writable. rewrite Wr'. simpl. rewrite app_nil_r, store_store.
  reflexivity.
Qed.

Lemma rerun_with_overwrite_witness :
  main posix (world_after posix fresh_world overwrite_args) overwrite_args =
  main posix fresh_world overwrite_args.
Proof.
  apply (rerun_with_overwrite posix fresh_world overwrite_args).
  - reflexivity.
  - reflexivity.
  - discriminate.
Defined.

(** X19: the diagnostics of a run that ends with status 0 are warnings
    only: the [TESSMAG] warning is among them exactly when the primary
    header has no [TESSMAG] card, and the [SAP_FLUX_ERR] warning exactly
    when the table of HDU 1 has no such column. *)
Theorem successful_run_warnings (P : platform) (w : world) (a : args)
  (hdus : list hdu) (t : table) :
  lookup_file (path_resolve P (path a)) (files w) = Some (FitsFile hdus) ->
  hdu1_table hdus = Some t ->
  exit_code (main P w a) = 0%Z ->
  (In WarnNoTessmag (stderr (main P w a)) <->
   header_get "TESSMAG" (primary_header hdus) = None) /\
  (In WarnNoSapFluxErr (stderr (main P w a)) <->
   get_column "SAP_FLUX_ERR" t = None) /\
  forall d, In d (stderr (main P w a)) ->
    d = WarnNoTessmag \/ d = WarnNoSapFluxErr.
Proof.
  intros I Ht. by_path P w a; intro E; try discriminate E.
  assert (hdul = hdus) by congruence. subst hdul.
  rewrite (export_table_process P hdus t Ht) in E'.
  set (tess := header_get "TESSMAG" (primary_header hdus)) in *.
  destruct (process_cases P tess t) as [[_ F] | (f & o & _ & Hf & F)];
    [congruence|].
  assert (log = derive_log tess f) by congruence. subst log.
  unfold derive_log. rewrite <- (Hf "SAP_FLUX_ERR"%string).
  destruct tess as [m|], (get_column "SAP_FLUX_ERR" f) as [c|]; simpl;
    (split; [|split]); try (split; intro H); try intros d H;
    try discriminate; try contradiction; try reflexivity; auto;
    repeat (destruct H as [H|H]; try contradiction; try discriminate H;
            auto).
Qed.

Lemma successful_run_warnings_witness :
  (In WarnNoTessmag (stderr (main posix fresh_world lc_args)) <->
   header_get "TESSMAG"
     (primary_header
        [ {| hdu_header := [("TESSMAG"%string, qc 10 1)];
             hdu_payload := OtherPayload |};
          {| hdu_header := [];
             hdu_payload := TablePayload (Some scenario) |} ]) = None) /\
  (In WarnNoSapFluxErr (stderr (main posix fresh_world lc_args)) <->
   get_column "SAP_FLUX_ERR" scenario = None) /\
  forall d, In d (stderr (main posix fresh_world lc_args)) ->
    d = WarnNoTessmag \/ d = WarnNoSapFluxErr.
Proof.
  apply (successful_run_warnings posix fresh_world lc_args); reflexivity.
Defined.

(** * Properties of the header viewer *)

Lemma len_slice_rows (k : nat) (t : table) :
  len (Show.slice_rows k t) = Nat.min k (len t).
Proof.
  destruct t as [|[n c] t]; simpl.
  - rewrite Nat.min_0_r. reflexivity.
  - apply length_firstn.
Qed.

Lemma get_column_slice_rows (name : string) (k : nat) (t : table) :
  get_column name (Show.slice_rows k t) =
  option_map (Show.slice_column k) (get_column name t).
Proof.
  induction t as [|[n c] t IH]; simpl.
  - reflexivity.
  - destruct (String.eqb name n); [reflexivity | exact IH].
Qed.

(** X20: the preview of a table shows [min(max(0, rows), len(table))] rows:
    a count above the length shows the whole table, a negative count shows
    none; and each column of the preview is the column of the table cut
    to its first values, that many. *)
Theorem preview_row_count (t : table) (num_rows : Z) :
  wf_table t ->
  exists preview,
    Show.print_table_preview (Some t) num_rows =
      [Show.Preview (Nat.min (Z.to_nat num_rows) (len t)) preview] /\
    forall name c, get_column name t = Some c ->
      exists c',
        get_column name preview = Some c' /\
        data c' = firstn (Z.to_nat num_rows) (data c) /\
        length (data c') = Nat.min (Z.to_nat num_rows) (len t).
Proof.
  intro W. unfold Show.print_table_preview.
  replace (Z.to_nat (Z.max 0 num_rows)) with (Z.to_nat num_rows) by lia.
  eexists. split; [rewrite len_slice_rows; reflexivity|].
  intros name c G. exists (Show.slice_column (Z.to_nat num_rows) c).
  rewrite get_column_slice_rows, G. simpl. repeat split.
  rewrite length_firstn. destruct (get_column_wf _ _ _ W G) as [-> _].
  reflexivity.
Qed.

Lemma preview_row_count_witness :
  exists preview,
    Show.print_table_preview (Some scenario) 7 =
      [Show.Preview (Nat.min (Z.to_nat 7) (len scenario)) preview] /\
    forall name c, get_column name scenario = Some c ->
      exists c',
        get_column name preview = Some c' /\
        data c' = firstn (Z.to_nat 7) (data c) /\
        length (data c') = Nat.min (Z.to_nat 7) (len scenario).
Proof. exact (preview_row_count scenario 7 wf_scenario). Defined.

(** X21: on a FITS file the viewer prints the summary and the header of
    every HDU before anything else, and ends with status 5 exactly when
    [--preview-hdu] is given with an index below 0 or not below the number
    of HDUs; otherwise it ends with status 0, also when the chosen HDU is
    not a table. *)
Theorem show_status (P : platform) (w : world) (a : Show.args)
  (hdul : list hdu) :
  lookup_file (Show.resolve_path P (Show.path a)) (files w) =
    Some (FitsFile hdul) ->
  (Show.status (Show.main P w a) = 5%Z <->
   exists index, Show.preview_hdu a = Some index /\
                 (index < 0 \/ Z.of_nat (length hdul) <= index)%Z) /\
  (Show.status (Show.main P w a) = 0%Z \/
   Show.status (Show.main P w a) = 5%Z) /\
  exists rest,
    Show.stdout (Show.main P w a) = Show.print_hdu_headers hdul ++ rest.
Proof.
  intro I. unfold Show.main. rewrite I.
  destruct (Show.preview_hdu a) as [index|]; simpl.
  - destruct ((index <? 0)%Z || (Z.of_nat (length hdul) <=? index)%Z) eqn:R;
      simpl.
    + split; [|split; [right; reflexivity
                      | exists []; simpl; rewrite app_nil_r; reflexivity]].
      split; [intros _|reflexivity]. exists index. split; [reflexivity|].
      apply orb_true_iff in R as [R|R]; [left|right]; lia.
    + apply orb_false_iff in R as [R1 R2].
      destruct (nth_error hdul (Z.to_nat index)) as [h|] eqn:N.
      * destruct (hdu_payload h); simpl;
          (split; [split; [discriminate | intros (i & [= <-] & Hi); lia]
                  | split; [left; reflexivity | eexists; reflexivity]]).
      * apply nth_error_None in N. lia.
  - split; [|split; [left; reflexivity
                    | exists []; simpl; rewrite app_nil_r; reflexivity]].
    split; [discriminate|]. intros (i & H & _). discriminate.
Qed.

Lemma show_status_witness :
  (Show.status (Show.main posix fresh_world show_args) = 5%Z <->
   exists index, Show.preview_hdu show_args = Some index /\
                 (index < 0 \/ Z.of_nat (length
                    [ {| hdu_header := [("TESSMAG"%string, qc 10 1)];
                         hdu_payload := OtherPayload |};
                      {| hdu_header := [];
                         hdu_payload := TablePayload (Some scenario) |} ])
                  <= index)%Z) /\
  (Show.status (Show.main posix fresh_world show_args) = 0%Z \/
   Show.status (Show.main posix fresh_world show_args) = 5%Z) /\
  exists rest,
    Show.stdout (Show.main posix fresh_world show_args) =
    Show.print_hdu_headers
      [ {| hdu_header := [("TESSMAG"%string, qc 10 1)];
           hdu_payload := OtherPayload |};
        {| hdu_header := [];
           hdu_payload := TablePayload (Some scenario) |} ] ++ rest.
Proof.
  apply (show_status posix fresh_world show_args). reflexivity.
Defined.
